(** * Download centre: record matcher, catalogue grouping and .s2p converter

    A shallow embedding of the JavaScript of the download centre:
    - [assets/main.js]: grouping of the catalogue by category ([render]) and
      the search filter ([filterItems]);
    - [assets/viewer.js] (two revisions of the file): the normalisation
      [norm], the record matcher [findEntry] and the redirect guard;
    - the converter page: [parseS2P], [buildDat] and the click handler of the
      convert button.

    The scripts run on a JavaScript host.  The part of the host they use is
    modelled first: strings as sequences of code points, the error completion
    of a call, [decodeURIComponent], the Unicode operations behind
    [normalize('NFKC')] and [toLowerCase], and IEEE 754 binary64 numbers with
    [Number], [Math.round], [toFixed], [Math.hypot] and [Math.log10]. *)

From Stdlib Require Import ZArith NArith List Bool Lia String Ascii.
From Stdlib Require Import ZifyN.
From Stdlib Require Import Permutation.
From Stdlib Require Import Floats.SpecFloat.
Import ListNotations.

Set Implicit Arguments.

(* ================================================================= *)
(** * The host: strings *)

Module JS.

Local Open Scope N_scope.

(** A JavaScript string, read as the sequence of its code points.  The
    scripts obtain their strings from [URLSearchParams], from the catalogue
    literal and from [FileReader.readAsText]; all three deliver well-formed
    UTF-16, for which equality and substring search on code units and on code
    points agree. *)
Definition jsstring := list N.

Definition str_eqb (a b : jsstring) : bool :=
  if list_eq_dec N.eq_dec a b then true else false.

(** ** Literals

    The literals of the scripts are written as Rocq strings holding UTF-8 and
    decoded to code points. *)

Definition is_cont (b : N) : bool := (0x80 <=? b) && (b <=? 0xBF).

(** The code point encoded by exactly the given octets, when they are a
    well-formed UTF-8 sequence (no overlong form, no surrogate, at most
    U+10FFFF). *)
Definition utf8_cp (bs : list N) : option N :=
  match bs with
  | [b0] => if b0 <? 0x80 then Some b0 else None
  | [b0; b1] =>
      if (0xC2 <=? b0) && (b0 <=? 0xDF) && is_cont b1
      then Some ((b0 - 0xC0) * 64 + (b1 - 0x80)) else None
  | [b0; b1; b2] =>
      if (0xE0 <=? b0) && (b0 <=? 0xEF) && is_cont b1 && is_cont b2 then
        let v := (b0 - 0xE0) * 4096 + (b1 - 0x80) * 64 + (b2 - 0x80) in
        if (0x800 <=? v) && negb ((0xD800 <=? v) && (v <=? 0xDFFF))
        then Some v else None
      else None
  | [b0; b1; b2; b3] =>
      if (0xF0 <=? b0) && (b0 <=? 0xF4) && is_cont b1 && is_cont b2
         && is_cont b3 then
        let v := (b0 - 0xF0) * 262144 + (b1 - 0x80) * 4096
                 + (b2 - 0x80) * 64 + (b3 - 0x80) in
        if (0x10000 <=? v) && (v <=? 0x10FFFF) then Some v else None
      else None
  | _ => None
  end.

(** Number of octets announced by a leading octet: the count of its leading
    one bits, 0 for a single-octet character. *)
Definition lead_len (b : N) : N :=
  if b <? 0x80 then 0
  else if b <? 0xC0 then 1
  else if b <? 0xE0 then 2
  else if b <? 0xF0 then 3
  else if b <? 0xF8 then 4
  else 5.

Definition cons_opt {A} (x : option A) (r : option (list A)) : option (list A) :=
  match x, r with
  | Some a, Some l => Some (a :: l)
  | _, _ => None
  end.

Fixpoint utf8_decode (bs : list N) : option jsstring :=
  match bs with
  | [] => Some []
  | b0 :: r0 =>
      match lead_len b0 with
      | 0 => cons_opt (utf8_cp [b0]) (utf8_decode r0)
      | 2 => match r0 with
             | b1 :: r1 => cons_opt (utf8_cp [b0; b1]) (utf8_decode r1)
             | _ => None
             end
      | 3 => match r0 with
             | b1 :: b2 :: r2 =>
                 cons_opt (utf8_cp [b0; b1; b2]) (utf8_decode r2)
             | _ => None
             end
      | 4 => match r0 with
             | b1 :: b2 :: b3 :: r3 =>
                 cons_opt (utf8_cp [b0; b1; b2; b3]) (utf8_decode r3)
             | _ => None
             end
      | _ => None
      end
  end.

Definition bytes_of (s : string) : list N :=
  List.map N_of_ascii (list_ascii_of_string s).

Definition lit (s : string) : jsstring :=
  match utf8_decode (bytes_of s) with
  | Some l => l
  | None => []
  end.

(** ** White space

    [WhiteSpace] and [LineTerminator] of ECMAScript: what [trim] strips and
    what the class [\s] of a regular expression matches. *)
Definition is_ws (c : N) : bool :=
  ((0x09 <=? c) && (c <=? 0x0D))
  || (c =? 0x20) || (c =? 0xA0) || (c =? 0x1680)
  || ((0x2000 <=? c) && (c <=? 0x200A))
  || (c =? 0x2028) || (c =? 0x2029) || (c =? 0x202F) || (c =? 0x205F)
  || (c =? 0x3000) || (c =? 0xFEFF).

Fixpoint trimStart (s : jsstring) : jsstring :=
  match s with
  | c :: r => if is_ws c then trimStart r else s
  | [] => []
  end.

Definition trimEnd (s : jsstring) : jsstring := rev (trimStart (rev s)).

(** [String.prototype.trim] *)
Definition trim (s : jsstring) : jsstring := trimEnd (trimStart s).

(** [s.replace(/\s+/g, ' ')]: every maximal run of white space becomes one
    space.  [in_run] tells that the previous character was white space. *)
Fixpoint collapse_from (in_run : bool) (s : jsstring) : jsstring :=
  match s with
  | [] => []
  | c :: r =>
      if is_ws c then
        if in_run then collapse_from true r else 0x20 :: collapse_from true r
      else c :: collapse_from false r
  end.

Definition collapse_ws (s : jsstring) : jsstring := collapse_from false s.

(** [s.split(/\s+/)]: the pieces between the maximal runs of white space; a
    run at either end leaves an empty piece there, and the empty string gives
    one empty piece.  [cur] is the piece being read, reversed. *)
Fixpoint split_ws_from (cur : jsstring) (in_run : bool) (s : jsstring)
  : list jsstring :=
  match s with
  | [] => [rev cur]
  | c :: r =>
      if is_ws c then
        if in_run then split_ws_from cur true r
        else rev cur :: split_ws_from [] true r
      else split_ws_from (c :: cur) false r
  end.

Definition split_ws (s : jsstring) : list jsstring := split_ws_from [] false s.

(** [text.split(/\r?\n/)]: the separators are the line feeds, each with the
    carriage return before it when there is one. *)
Definition drop_cr (rcur : jsstring) : jsstring :=
  match rcur with
  | 0x0D :: r => r
  | _ => rcur
  end.

Fixpoint split_lines_from (cur : jsstring) (s : jsstring) : list jsstring :=
  match s with
  | [] => [rev cur]
  | c :: r =>
      if c =? 0x0A then rev (drop_cr cur) :: split_lines_from [] r
      else split_lines_from (c :: cur) r
  end.

Definition split_lines (s : jsstring) : list jsstring := split_lines_from [] s.

(** [lines.join('\n')] *)
Fixpoint join_lines (l : list jsstring) : jsstring :=
  match l with
  | [] => []
  | [x] => x
  | x :: r => x ++ 0x0A :: join_lines r
  end.

(** [s.startsWith(p)] *)
Fixpoint startsWith (s p : jsstring) {struct p} : bool :=
  match p, s with
  | [], _ => true
  | a :: p', b :: s' => (a =? b) && startsWith s' p'
  | _ :: _, [] => false
  end.

(** [s.includes(p)] *)
Fixpoint includes (s p : jsstring) : bool :=
  startsWith s p ||
  match s with
  | [] => false
  | _ :: s' => includes s' p
  end.

(** The double quote, as a string. *)
Definition dquote : jsstring := [0x22].

(** Truthiness of a string value: every string but the empty one. *)
Definition truthy (s : jsstring) : bool :=
  match s with [] => false | _ => true end.

(** A property that is absent ([undefined]) or holds a string. *)
Definition prop := option jsstring.

(** [v || dflt] *)
Definition or_else (v : prop) (dflt : jsstring) : jsstring :=
  match v with
  | Some s => if truthy s then s else dflt
  | None => dflt
  end.

(** Truthiness of a property. *)
Definition given (v : prop) : bool :=
  match v with
  | Some s => truthy s
  | None => false
  end.

(* ================================================================= *)
(** ** Abrupt completion *)

Inductive error := URIError | TypeError.

(** The outcome of a call: a value, or a thrown error. *)
Inductive completion (A : Type) :=
| Normal (a : A)
| Throw (e : error).
Arguments Normal {A} a.
Arguments Throw {A} e.

Definition bind {A B} (c : completion A) (k : A -> completion B)
  : completion B :=
  match c with
  | Normal a => k a
  | Throw e => Throw e
  end.

Notation "x <- c ;; k" := (bind c (fun x => k))
  (at level 61, c at next level, right associativity).

(** [try { body } catch (e) { }] around a body whose value is [A]: a thrown
    error is swallowed and [dflt] stands for "nothing was done". *)
Definition try_catch {A} (body : completion A) (dflt : A) : A :=
  match body with
  | Normal a => a
  | Throw _ => dflt
  end.

(** [Array.prototype.find] with a predicate that may throw: the elements are
    visited in order, the first one satisfying the predicate is returned, and
    an error thrown by the predicate ends the search. *)
Fixpoint findM {A} (f : A -> completion bool) (l : list A)
  : completion (option A) :=
  match l with
  | [] => Normal None
  | x :: r =>
      b <- f x ;;
      if b then Normal (Some x) else findM f r
  end.

(* ================================================================= *)
(** ** decodeURIComponent *)

Definition hex_val (c : N) : option N :=
  if (0x30 <=? c) && (c <=? 0x39) then Some (c - 0x30)
  else if (0x41 <=? c) && (c <=? 0x46) then Some (c - 0x41 + 10)
  else if (0x61 <=? c) && (c <=? 0x66) then Some (c - 0x61 + 10)
  else None.

Inductive item :=
| Lit (c : N)      (* a character other than the percent sign *)
| Oct (b : N).     (* the octet of an escape [%XX] *)

(** Every percent sign must be followed by two hexadecimal digits. *)
Fixpoint scan_escapes (s : jsstring) : option (list item) :=
  match s with
  | [] => Some []
  | c :: r =>
      if c =? 0x25 then
        match r with
        | h1 :: h2 :: r2 =>
            match hex_val h1, hex_val h2 with
            | Some a, Some b =>
                cons_opt (Some (Oct (16 * a + b))) (scan_escapes r2)
            | _, _ => None
            end
        | _ => None
        end
      else cons_opt (Some (Lit c)) (scan_escapes r)
  end.

(** An octet below 0x80 stands for itself; a leading octet announcing [n]
    octets must be followed by [n - 1] escapes, the [n] octets being the
    well-formed UTF-8 encoding of one code point. *)
Fixpoint assemble (l : list item) : option jsstring :=
  match l with
  | [] => Some []
  | Lit c :: r => cons_opt (Some c) (assemble r)
  | Oct b0 :: r0 =>
      match lead_len b0 with
      | 0 => cons_opt (Some b0) (assemble r0)
      | 2 => match r0 with
             | Oct b1 :: r1 => cons_opt (utf8_cp [b0; b1]) (assemble r1)
             | _ => None
             end
      | 3 => match r0 with
             | Oct b1 :: Oct b2 :: r2 =>
                 cons_opt (utf8_cp [b0; b1; b2]) (assemble r2)
             | _ => None
             end
      | 4 => match r0 with
             | Oct b1 :: Oct b2 :: Oct b3 :: r3 =>
                 cons_opt (utf8_cp [b0; b1; b2; b3]) (assemble r3)
             | _ => None
             end
      | _ => None
      end
  end.

(** [decodeURIComponent(s)]: the decoded string, or a [URIError] when an
    escape is malformed or the octets are not UTF-8. *)
Definition decodeURIComponent (s : jsstring) : completion jsstring :=
  match scan_escapes s with
  | Some l =>
      match assemble l with
      | Some r => Normal r
      | None => Throw URIError
      end
  | None => Throw URIError
  end.

(* ================================================================= *)
(** ** encodeURI *)

Definition utf8_encode (c : N) : list N :=
  if c <? 0x80 then [c]
  else if c <? 0x800 then [0xC0 + c / 64; 0x80 + c mod 64]
  else if c <? 0x10000 then
    [0xE0 + c / 4096; 0x80 + (c / 64) mod 64; 0x80 + c mod 64]
  else
    [0xF0 + c / 262144; 0x80 + (c / 4096) mod 64; 0x80 + (c / 64) mod 64;
     0x80 + c mod 64].

Definition hex_char (v : N) : N := if v <? 10 then 0x30 + v else 0x41 + v - 10.

Definition escape_octet (b : N) : jsstring :=
  [0x25; hex_char (b / 16); hex_char (b mod 16)].

Definition is_alnum (c : N) : bool :=
  ((0x30 <=? c) && (c <=? 0x39)) || ((0x41 <=? c) && (c <=? 0x5A))
  || ((0x61 <=? c) && (c <=? 0x7A)).

(** The characters [encodeURI] leaves alone: letters, digits, the marks
    [-_.!~*'()], the reserved characters [;/?:@&=+$,] and [#]. *)
Definition uri_kept (c : N) : bool :=
  is_alnum c || existsb (N.eqb c) (lit "-_.!~*'();/?:@&=+$,#").

(** [encodeURI(s)] *)
Definition encodeURI (s : jsstring) : jsstring :=
  flat_map (fun c => if uri_kept c then [c]
                     else flat_map escape_octet (utf8_encode c)) s.

(* ================================================================= *)
(** ** Unicode: normalisation and case *)

Definition is_ascii (s : jsstring) : Prop := Forall (fun c => c < 128) s.

Definition is_ascii_b (s : jsstring) : bool := forallb (fun c => c <? 128) s.

(** Lower case of a Basic Latin character. *)
Definition ascii_lower (c : N) : N :=
  if (0x41 <=? c) && (c <=? 0x5A) then c + 32 else c.

(** The Unicode Character Database as the host carries it: per code point the
    full compatibility decomposition (the code point itself when it has
    none, Hangul syllables included), the canonical combining class and the
    primary composite of a pair; and the lower-casing of a string.  The laws
    are the part of the database the proofs rely on: Basic Latin characters
    do not decompose, are starters, are the second half of no composite, and
    take their lower case letter by letter. *)
Record UCD := {
  decomp : N -> list N;
  ccc : N -> N;
  primary_composite : N -> N -> option N;
  to_lower : jsstring -> jsstring;
  decomp_ascii : forall c, c < 128 -> decomp c = [c];
  ccc_ascii : forall c, c < 128 -> ccc c = 0;
  composite_ascii : forall a b, b < 128 -> primary_composite a b = None;
  to_lower_ascii : forall s, is_ascii s -> to_lower s = List.map ascii_lower s
}.

Section Normalisation.
Variable U : UCD.

(** Canonical ordering: each maximal run of characters of non-zero
    combining class is sorted by class, equal classes keeping their order.
    [insert_mark] places a mark in a sorted run, [reorder] carries the
    run read so far. *)
Fixpoint insert_mark (c : N) (run : list N) : list N :=
  match run with
  | [] => [c]
  | d :: r =>
      if ccc U c <? ccc U d then c :: d :: r else d :: insert_mark c r
  end.

Fixpoint reorder (run : list N) (s : list N) : list N :=
  match s with
  | [] => run
  | c :: r =>
      if ccc U c =? 0 then run ++ c :: reorder [] r
      else reorder (insert_mark c run) r
  end.

(** Canonical composition: [st] is the last starter, [pend] the characters
    kept after it (reversed), [done] what precedes it (reversed) and
    [lastc] the combining class of the last character kept.  A character
    combines with the starter when the pair has a primary composite and
    nothing kept in between blocks it. *)
Fixpoint compose_from (done : list N) (st : N) (pend : list N) (lastc : N)
         (s : list N) : list N :=
  match s with
  | [] => rev done ++ st :: rev pend
  | ch :: r =>
      let cc := ccc U ch in
      let keep :=
        if cc =? 0 then compose_from (pend ++ st :: done) ch [] 0 r
        else compose_from done st (ch :: pend) cc r in
      match primary_composite U st ch with
      | Some p =>
          if (lastc <? cc) || (lastc =? 0)
          then compose_from done p pend lastc r
          else keep
      | None => keep
      end
  end.

Definition compose (s : list N) : list N :=
  match s with
  | [] => []
  | c :: r => compose_from [] c [] (if ccc U c =? 0 then 0 else 256) r
  end.

(** [s.normalize('NFKC')] *)
Definition normalize_NFKC (s : jsstring) : jsstring :=
  compose (reorder [] (flat_map (decomp U) s)).

(** [s.toLowerCase()] *)
Definition toLowerCase (s : jsstring) : jsstring := to_lower U s.

End Normalisation.

(** An excerpt of the database, exact on the code points it lists and on
    Basic Latin: U+00A0 and U+FB01 decompose by compatibility, U+00C9, U+00E9
    and U+01F0 canonically; U+0301 and U+030C have class 230; lower case is
    taken for Basic Latin and Latin-1 letters. *)
Definition excerpt_decomp (c : N) : list N :=
  if c =? 0xA0 then [0x20]
  else if c =? 0xC9 then [0x45; 0x301]
  else if c =? 0xE9 then [0x65; 0x301]
  else if c =? 0x1F0 then [0x6A; 0x30C]
  else if c =? 0xFB01 then [0x66; 0x69]
  else [c].

Definition excerpt_ccc (c : N) : N :=
  if (c =? 0x301) || (c =? 0x30C) then 230 else 0.

Definition excerpt_composite (a b : N) : option N :=
  if (a =? 0x45) && (b =? 0x301) then Some 0xC9
  else if (a =? 0x65) && (b =? 0x301) then Some 0xE9
  else if (a =? 0x6A) && (b =? 0x30C) then Some 0x1F0
  else None.

Definition excerpt_lower_cp (c : N) : N :=
  if (0x41 <=? c) && (c <=? 0x5A) then c + 32
  else if (0xC0 <=? c) && (c <=? 0xDE) && negb (c =? 0xD7) then c + 32
  else c.

Definition excerpt_lower (s : jsstring) : jsstring :=
  List.map excerpt_lower_cp s.

End JS.

(* ================================================================= *)
(** * The host: numbers *)

Module Num.
Import JS.

Local Open Scope Z_scope.

(** A Number is an IEEE 754 binary64 value: [S754_nan] is NaN, the zeros and
    the infinities carry a sign ([true] for negative). *)
Definition number := spec_float.

Definition prec : Z := 53.
Definition emax : Z := 1024.

Definition isNaN (x : number) : bool :=
  match x with
  | S754_nan => true
  | _ => false
  end.

Definition pos_zero : number := S754_zero false.
Definition neg_infinity : number := S754_infinity true.
Definition pos_infinity : number := S754_infinity false.

(** The Number nearest to an integer, and to a quotient of positive integers
    (ties to even).  The quotient is taken to 64 bits or more, and a last
    bit records whether the division left a remainder. *)
Definition of_Z (z : Z) : number := binary_normalize prec emax z 0 false.

Definition of_ratio (n d : positive) : number :=
  let k := Z.max 0 (64 + Zpos (digits2_pos d) - Zpos (digits2_pos n)) in
  let (q, r) := Z.div_eucl (Z.shiftl (Zpos n) k) (Zpos d) in
  binary_normalize prec emax (2 * q + (if r =? 0 then 0 else 1)) (- k - 1)
                   false.

(** The Number nearest to [m * 10 ^ e], for [m] not negative. *)
Definition of_decimal (m e : Z) : number :=
  match m with
  | Zpos p =>
      if 0 <=? e then of_Z (m * 10 ^ e)
      else of_ratio p (Z.to_pos (10 ^ (- e)))
  | _ => pos_zero
  end.

Definition times (x y : number) : number := SFmul prec emax x y.

(** ** Number(string) *)

Definition digit_of (radix : Z) (c : N) : option Z :=
  match hex_val c with
  | Some v => if Z.of_N v <? radix then Some (Z.of_N v) else None
  | None => None
  end.

(** The longest prefix of digits of the radix, as digit values, and what
    follows it. *)
Fixpoint span_digits (radix : Z) (s : jsstring) : list Z * jsstring :=
  match s with
  | [] => ([], [])
  | c :: r =>
      match digit_of radix c with
      | Some d => let (ds, rest) := span_digits radix r in (d :: ds, rest)
      | None => ([], s)
      end
  end.

Definition digits_val (radix : Z) (ds : list Z) : Z :=
  fold_left (fun a d => radix * a + d) ds 0.

(** What follows the mantissa: nothing, or [e] or [E], an optional sign and
    one digit or more. *)
Definition parse_exponent (s : jsstring) : option Z :=
  match s with
  | [] => Some 0
  | c :: r =>
      if (c =? 0x65)%N || (c =? 0x45)%N then
        let '(neg, r') :=
          match r with
          | 0x2B%N :: t => (false, t)
          | 0x2D%N :: t => (true, t)
          | _ => (false, r)
          end in
        match span_digits 10 r' with
        | (d :: ds, []) =>
            let v := digits_val 10 (d :: ds) in
            Some (if neg then - v else v)
        | _ => None
        end
      else None
  end.

(** [StrUnsignedDecimalLiteral]: [Infinity], or digits with an optional
    fraction and exponent, one digit at least before or after the point. *)
Definition parse_unsigned (s : jsstring) : option number :=
  if str_eqb s (lit "Infinity") then Some pos_infinity
  else
    let (ip, r1) := span_digits 10 s in
    let (fp, r2) :=
      match r1 with
      | 0x2E%N :: t => span_digits 10 t
      | _ => ([], r1)
      end in
    match ip ++ fp with
    | [] => None
    | ds =>
        match parse_exponent r2 with
        | Some e =>
            Some (of_decimal (digits_val 10 ds) (e - Z.of_nat (List.length fp)))
        | None => None
        end
    end.

(** [0x], [0o] and [0b] integer literals; they take no sign. *)
Definition parse_radix (s : jsstring) : option number :=
  match s with
  | 0x30%N :: p :: r =>
      let radix :=
        if (p =? 0x78)%N || (p =? 0x58)%N then Some 16
        else if (p =? 0x6F)%N || (p =? 0x4F)%N then Some 8
        else if (p =? 0x62)%N || (p =? 0x42)%N then Some 2
        else None in
      match radix with
      | Some b =>
          match span_digits b r with
          | (d :: ds, []) => Some (of_Z (digits_val b (d :: ds)))
          | _ => None
          end
      | None => None
      end
  | _ => None
  end.

(** [Number(s)] for a string [s]: white space around the literal is dropped,
    the empty string is [+0], and what is no numeric literal is NaN. *)
Definition Number (s : jsstring) : number :=
  match trim s with
  | [] => pos_zero
  | t =>
      match parse_radix t with
      | Some v => v
      | None =>
          let r :=
            match t with
            | 0x2D%N :: u => option_map SFopp (parse_unsigned u)
            | 0x2B%N :: u => parse_unsigned u
            | _ => parse_unsigned t
            end in
          match r with
          | Some v => v
          | None => S754_nan
          end
      end
  end.

(** ** Printing *)

Fixpoint uint_chars (u : Decimal.uint) : jsstring :=
  match u with
  | Decimal.Nil => []
  | Decimal.D0 r => 0x30%N :: uint_chars r
  | Decimal.D1 r => 0x31%N :: uint_chars r
  | Decimal.D2 r => 0x32%N :: uint_chars r
  | Decimal.D3 r => 0x33%N :: uint_chars r
  | Decimal.D4 r => 0x34%N :: uint_chars r
  | Decimal.D5 r => 0x35%N :: uint_chars r
  | Decimal.D6 r => 0x36%N :: uint_chars r
  | Decimal.D7 r => 0x37%N :: uint_chars r
  | Decimal.D8 r => 0x38%N :: uint_chars r
  | Decimal.D9 r => 0x39%N :: uint_chars r
  end.

(** The decimal digits of a natural number. *)
Definition dec_string (n : Z) : jsstring := uint_chars (N.to_uint (Z.to_N n)).

(** The decimal exponent of a positive quotient: the [n] with
    [10 ^ (n - 1) <= num / den < 10 ^ n]. *)
Fixpoint first_scale (fuel : nat) (num den j : Z) : Z :=
  match fuel with
  | O => j
  | S k =>
      if den <=? num * 10 ^ j then j else first_scale k num den (j + 1)
  end.

Definition decimal_exponent (num den : Z) : Z :=
  if den <=? num then Z.of_nat (List.length (dec_string (num / den)))
  else 1 - first_scale 400 num den 1.

(** The [k]-digit integers [s] next to [x / 10 ^ (n - k)], for the positive
    Number [x = num / den]: the one whose Number is [x], the nearer one when
    both are, the even one on a tie. *)
Definition candidate (x : number) (num den n k : Z) : option (Z * Z) :=
  let p := n - k in
  let nm := num * 10 ^ Z.max 0 (- p) in
  let dn := den * 10 ^ Z.max 0 p in
  let lo := nm / dn in
  let hi := lo + 1 in
  let ok s := SFeqb (of_decimal s p) x in
  let pick s :=
    if s =? 10 ^ k then Some (10 ^ (k - 1), n + 1) else Some (s, n) in
  match ok lo, ok hi with
  | true, true =>
      match 2 * nm ?= (2 * lo + 1) * dn with
      | Lt => pick lo
      | Gt => pick hi
      | Eq => if Z.even lo then pick lo else pick hi
      end
  | true, false => pick lo
  | false, true => pick hi
  | false, false => None
  end.

(** The shortest digits: the least [k], from [k] on, with a candidate. *)
Fixpoint shortest (fuel : nat) (x : number) (num den n k : Z) : Z * Z :=
  match fuel with
  | O => (0, n)
  | S f =>
      match candidate x num den n k with
      | Some sn => sn
      | None => shortest f x num den n (k + 1)
      end
  end.

Definition zeros (n : Z) : jsstring := repeat 0x30%N (Z.to_nat n).

(** The text of the digits [s] with the decimal exponent [n]. *)
Definition layout (s n : Z) : jsstring :=
  let ds := dec_string s in
  let k := Z.of_nat (List.length ds) in
  if (k <=? n) && (n <=? 21) then ds ++ zeros (n - k)
  else if (0 <? n) && (n <=? 21) then
    firstn (Z.to_nat n) ds ++ 0x2E%N :: skipn (Z.to_nat n) ds
  else if (-6 <? n) && (n <=? 0) then lit "0." ++ zeros (- n) ++ ds
  else
    let e := n - 1 in
    let es := lit (if 0 <=? e then "+" else "-") ++ dec_string (Z.abs e) in
    match ds with
    | [] => []
    | [d] => d :: 0x65%N :: es
    | d :: r => d :: 0x2E%N :: r ++ 0x65%N :: es
    end.

(** [String(x)], as a template literal prints a Number. *)
Definition NumberToString (x : number) : jsstring :=
  match x with
  | S754_nan => lit "NaN"
  | S754_zero _ => lit "0"
  | S754_infinity s => lit (if s then "-Infinity" else "Infinity")
  | S754_finite s m e =>
      let num := Zpos m * 2 ^ Z.max 0 e in
      let den := 2 ^ Z.max 0 (- e) in
      let n := decimal_exponent num den in
      let (digits, n') := shortest 17 (S754_finite false m e) num den n 1 in
      (if s then lit "-" else []) ++ layout digits n'
  end.

(** [x.toFixed(f)] for [0 <= f <= 100]: the integer [n] nearest to
    [|x| * 10 ^ f], the larger one on a tie, printed with [f] decimals. *)
Definition toFixed (x : number) (f : Z) : jsstring :=
  match x with
  | S754_finite s m e =>
      let big :=
        if 0 <=? e then 10 ^ 21 <=? Zpos m * 2 ^ e
        else 10 ^ 21 * 2 ^ (- e) <=? Zpos m in
      if big then NumberToString x
      else
        let n :=
          if 0 <=? e then Zpos m * 2 ^ e * 10 ^ f
          else (2 * Zpos m * 10 ^ f + 2 ^ (- e)) / (2 * 2 ^ (- e)) in
        let ds := dec_string n in
        let k := Z.to_nat f in
        let ds := repeat 0x30%N (S k - List.length ds) ++ ds in
        let cut := (List.length ds - k)%nat in
        (if s then lit "-" else [])
          ++ firstn cut ds
          ++ (if (k =? 0)%nat then [] else 0x2E%N :: skipn cut ds)
  | S754_zero _ =>
      lit "0" ++ (if f =? 0 then [] else 0x2E%N :: zeros f)
  | _ => NumberToString x
  end.

(** ** Math *)

(** [Math.round(x)]: the integer [floor(x + 1/2)], a zero keeping the sign
    of [x]. *)
Definition Math_round (x : number) : number :=
  match x with
  | S754_finite s m e =>
      if 0 <=? e then x
      else
        let num := if s then Zneg m else Zpos m in
        let den := 2 ^ (- e) in
        let n := (2 * num + den) / (2 * den) in
        if n =? 0 then S754_zero s else of_Z n
  | _ => x
  end.

Definition is_inf (x : number) : bool :=
  match x with
  | S754_infinity _ => true
  | _ => false
  end.

Definition is_zero (x : number) : bool :=
  match x with
  | S754_zero _ => true
  | _ => false
  end.

(** What the host computes by approximation: the logarithm of a positive
    finite Number other than 1, and the hypotenuse of two finite Numbers
    that are not both zero. *)
Record Engine := {
  log10_approx : number -> number;
  hypot_approx : number -> number -> number
}.

Section Host.
Variable E : Engine.

(** [Math.log10(x)] *)
Definition Math_log10 (x : number) : number :=
  match x with
  | S754_nan => S754_nan
  | S754_zero _ => neg_infinity
  | S754_infinity false => pos_infinity
  | S754_infinity true => S754_nan
  | S754_finite true _ _ => S754_nan
  | S754_finite false _ _ =>
      if SFeqb x (of_Z 1) then pos_zero else log10_approx E x
  end.

(** [Math.hypot(a, b)] *)
Definition Math_hypot (a b : number) : number :=
  if is_inf a || is_inf b then pos_infinity
  else if isNaN a || isNaN b then S754_nan
  else if is_zero a && is_zero b then pos_zero
  else hypot_approx E a b.

End Host.

(** ** An engine to run the scripts with

    The hypotenuse as the rounded square root of the sum of the squares, the
    logarithm by the binary digits of the logarithm in base 2 (sixty
    squarings of an 80-bit fixed-point mantissa) times [log10 2]. *)
Definition plain_hypot (a b : number) : number :=
  SFsqrt prec emax (SFadd prec emax (times a a) (times b b)).

Fixpoint log2_bits (fuel : nat) (y : Z) (acc : Z) : Z :=
  match fuel with
  | O => acc
  | S k =>
      let y2 := Z.shiftr (y * y) 80 in
      if 2 ^ 81 <=? y2 then log2_bits k (Z.shiftr y2 1) (2 * acc + 1)
      else log2_bits k y2 (2 * acc)
  end.

Definition plain_log10 (x : number) : number :=
  match x with
  | S754_finite false m e =>
      let d := Zpos (digits2_pos m) in
      let y := Z.shiftl (Zpos m) (81 - d) in
      let frac := log2_bits 60 y 0 in
      let l2 := (e + d - 1) * 2 ^ 60 + frac in
      let num := l2 * 30102999566398119521373889472449 in
      let den := 2 ^ 60 * 10 ^ 32 in
      match num with
      | Zpos p => of_ratio p (Z.to_pos den)
      | Zneg p => SFopp (of_ratio p (Z.to_pos den))
      | Z0 => pos_zero
      end
  | _ => S754_nan
  end.

Definition plain_engine : Engine :=
  {| log10_approx := plain_log10; hypot_approx := plain_hypot |}.

End Num.

(* ================================================================= *)
(** * The catalogue: [window.DOWNLOADS] *)

Module Data.
Import JS.

(** One entry of the catalogue, with the properties the scripts below read
    ([version], [date], [size_bytes] and [versionweb] are only displayed by
    [makeCard]).  A property may be absent. *)
Record DownloadRecord := {
  filename : prop;
  title : prop;
  category : prop;
  description : prop;
  code_py : prop;
  code_yaml : prop;
  code_path : prop;
  yaml_path : prop;
  liens : prop
}.

End Data.

(* ================================================================= *)
(** * assets/main.js: grouping and search *)

Module Main.
Import JS Data.

Section Script.
Variable U : UCD.

(** [const categories = ['algorithme','bibliographie','autre']] *)
Definition categories : list jsstring :=
  [lit "algorithme"; lit "bibliographie"; lit "autre"].

(** [const grouped = { algorithme: [], bibliographie: [], autre: [] }] *)
Record Grouped := {
  algorithme : list DownloadRecord;
  bibliographie : list DownloadRecord;
  autre : list DownloadRecord
}.

Definition no_groups : Grouped :=
  {| algorithme := []; bibliographie := []; autre := [] |}.

(** The key computed for an item in the first loop of [render]. *)
Definition key_of (it : DownloadRecord) : jsstring :=
  let cat := trim (toLowerCase U (or_else (category it) (lit "autre"))) in
  let cat :=
    if str_eqb cat (lit "algorithm") || str_eqb cat (lit "algo")
    then lit "algorithme" else cat in
  let cat := if str_eqb cat (lit "biblio") then lit "bibliographie" else cat in
  if existsb (str_eqb cat) categories then cat else lit "autre".

(** [grouped[key].push(it)]; a key that is no property of [grouped] would
    make the call a [TypeError]. *)
Definition push_group (g : Grouped) (key : jsstring) (it : DownloadRecord)
  : completion Grouped :=
  if str_eqb key (lit "algorithme") then
    Normal {| algorithme := algorithme g ++ [it];
              bibliographie := bibliographie g;
              autre := autre g |}
  else if str_eqb key (lit "bibliographie") then
    Normal {| algorithme := algorithme g;
              bibliographie := bibliographie g ++ [it];
              autre := autre g |}
  else if str_eqb key (lit "autre") then
    Normal {| algorithme := algorithme g;
              bibliographie := bibliographie g;
              autre := autre g ++ [it] |}
  else Throw TypeError.

(** The first loop of [render]: [filtered.forEach(it => ...)]. *)
Definition group_items (filtered : list DownloadRecord)
  : completion Grouped :=
  fold_left (fun acc it => g <- acc ;; push_group g (key_of it) it)
            filtered (Normal no_groups).

(** What a category container shows after the second loop of [render]:
    the note for an empty category, or one card per item, appended in the
    order of the list. *)
Inductive shown :=
| EmptyNote
| Cards (l : list DownloadRecord).

Definition show_list (l : list DownloadRecord) : shown :=
  match l with
  | [] => EmptyNote
  | _ => Cards l
  end.

(** [render(filtered)]: the three containers, in the order of
    [categories]. *)
Definition render (filtered : list DownloadRecord)
  : completion (shown * shown * shown) :=
  g <- group_items filtered ;;
  Normal (show_list (algorithme g), show_list (bibliographie g),
          show_list (autre g)).

(** The text searched for an item. *)
Definition hay (it : DownloadRecord) : jsstring :=
  toLowerCase U (or_else (title it) [] ++ lit " "
                 ++ or_else (filename it) [] ++ lit " "
                 ++ or_else (description it) []).

(** [filterItems(q)], over the catalogue [items]. *)
Definition filterItems (items : list DownloadRecord) (q : jsstring)
  : list DownloadRecord :=
  if negb (truthy q) then items
  else
    let q := toLowerCase U q in
    filter (fun it => includes (hay it) q) items.

End Script.
End Main.

(* ================================================================= *)
(** * assets/viewer.js: the record matcher and the viewer *)

Module Viewer.
Import JS Data.

(** [params()]: the query parameters the script reads. *)
Record Params := {
  p_title : prop;
  p_file : prop
}.

Section Script.
Variable U : UCD.

(** [norm(s)] *)
Definition norm (s : prop) : jsstring :=
  match s with
  | Some t =>
      if truthy t
      then collapse_ws (trim (toLowerCase U (normalize_NFKC U t)))
      else []
  | None => []
  end.

(** The block [if(p.title){ ... }] of [findEntry], for the title [q]: the
    entry it returns, or [None] when the block falls through. *)
Definition title_tiers (downloads : list DownloadRecord) (q : jsstring)
  : option DownloadRecord :=
  match find (fun d => str_eqb (or_else (title d) []) q) downloads with
  | Some entry => Some entry
  | None =>
      let decoded :=
        try_catch
          (dec <- decodeURIComponent q ;;
           Normal (find (fun d => str_eqb (or_else (title d) []) dec)
                        downloads))
          None in
      match decoded with
      | Some entry => Some entry
      | None =>
          let n := norm (Some q) in
          match find (fun d => str_eqb (norm (title d)) n) downloads with
          | Some entry => Some entry
          | None => find (fun d => includes (norm (title d)) n) downloads
          end
      end
  end.

(** The two blocks [if(p.file){ ... }], for the file name [f].  The first
    predicate decodes [f] when the raw comparison fails, outside any
    [try]. *)
Definition file_tiers (downloads : list DownloadRecord) (f : jsstring)
  : completion (option DownloadRecord) :=
  first <- findM (fun d =>
                    if str_eqb (or_else (filename d) []) f then Normal true
                    else
                      dec <- decodeURIComponent f ;;
                      Normal (str_eqb (or_else (filename d) []) dec))
                 downloads ;;
  match first with
  | Some entry => Normal (Some entry)
  | None =>
      let nf := norm (Some f) in
      match find (fun d => str_eqb (norm (filename d)) nf
                           || includes (norm (filename d)) nf)
                 downloads with
      | Some entry => Normal (Some entry)
      | None =>
          Normal
            (find (fun d =>
                     (given (code_path d)
                      && includes (norm (code_path d)) nf)
                     || (given (yaml_path d)
                         && includes (norm (yaml_path d)) nf))
                  downloads)
      end
  end.

(** [findEntry()], over the catalogue [downloads] and the parameters [p];
    [None] is the [null] of the script. *)
Definition findEntry (downloads : list DownloadRecord) (p : Params)
  : completion (option DownloadRecord) :=
  match downloads with
  | [] => Normal None
  | _ =>
      let by_title :=
        if given (p_title p)
        then title_tiers downloads (or_else (p_title p) [])
        else None in
      match by_title with
      | Some entry => Normal (Some entry)
      | None =>
          if given (p_file p)
          then file_tiers downloads (or_else (p_file p) [])
          else Normal None
      end
  end.

(** ** The page *)

Inductive element :=
| Info | ErrEl | CodeBox | YamlBox | RawCodeLink | RawYamlLink
| CodeTitle | YamlTitle | DownloadButton.

(** What the script does to the page, in order. *)
Inductive effect :=
| SetText (el : element) (s : jsstring)     (* el.textContent = s *)
| SetHtml (el : element) (s : jsstring)     (* el.innerHTML = s *)
| AppendHtml (el : element) (s : jsstring)  (* insertAdjacentHTML *)
| SetHref (el : element) (s : jsstring)     (* el.href = s *)
| SetDownload (el : element) (s : jsstring) (* el.download = s *)
| SetDisplay (el : element) (s : jsstring)  (* el.style.display = s *)
| Navigate (url : jsstring)                 (* window.location.href = url *)
| Warn (s : jsstring)                       (* console.warn(s) *)
| Uncaught (e : error).                     (* the script stops on an error *)

(** [escapeHtml(s)] *)
Definition escapeHtml (s : jsstring) : jsstring :=
  flat_map (fun c =>
              if (c =? 0x26)%N then lit "&amp;"
              else if (c =? 0x3C)%N then lit "&lt;"
              else if (c =? 0x3E)%N then lit "&gt;"
              else if (c =? 0x22)%N then lit "&quot;"
              else if (c =? 0x27)%N then lit "&#39;"
              else [c]) s.

(** [showError(msg)] *)
Definition showError (msg : jsstring) : list effect :=
  [SetHtml ErrEl (lit "<div class=" ++ dquote ++ lit "error" ++ dquote
                  ++ lit ">" ++ escapeHtml msg ++ lit "</div>");
   SetText Info []].

(** The line of the recovery list for one entry, and the list. *)
Definition entry_line (d : DownloadRecord) : jsstring :=
  lit "• title=" ++ dquote ++ or_else (title d) [] ++ dquote
  ++ lit "  filename=" ++ dquote ++ or_else (filename d) [] ++ dquote.

Definition entry_list (downloads : list DownloadRecord) : jsstring :=
  join_lines (List.map entry_line downloads).

(** The branch [if(!entry){ ... }]. *)
Definition no_match (downloads : list DownloadRecord) : list effect :=
  let list := entry_list downloads in
  showError (lit "Aucune entrée correspondante dans downloads.js pour ce title/file. Titres disponibles listés ci-dessous.")
  ++ [SetText Info (lit "Titres disponibles (console) — copier un title exact ou utiliser ?file=...");
      Warn (lit "Aucune entrée correspondante — liste des entrées:"
            ++ [0x0A%N] ++ list);
      AppendHtml ErrEl
        (lit "<pre style=" ++ dquote
         ++ lit "margin-top:8px;color:#ffdede;background:#1b0f0f;padding:8px;border-radius:6px"
         ++ dquote ++ lit ">" ++ escapeHtml list ++ lit "</pre>")].

(** A pane: the embedded text, else the raw path, else a notice. *)
Definition fill_pane (box link : element) (embedded path : prop)
           (no_embedded nothing : jsstring) : list effect :=
  if given embedded then
    [SetText box (or_else embedded []);
     SetHref link (if given path then or_else path [] else lit "#")]
  else if given path then
    [SetText box (no_embedded ++ or_else path []);
     SetHref link (or_else path [])]
  else
    [SetText box nothing; SetHref link (lit "#")].

(** [s.replace(/^\/+/, '')] and [s.split('/').pop()] *)
Fixpoint strip_slashes (s : jsstring) : jsstring :=
  match s with
  | c :: r => if (c =? 0x2F)%N then strip_slashes r else s
  | [] => []
  end.

Fixpoint last_segment_from (cur : jsstring) (s : jsstring) : jsstring :=
  match s with
  | [] => rev cur
  | c :: r =>
      if (c =? 0x2F)%N then last_segment_from [] r
      else last_segment_from (c :: cur) r
  end.

Definition last_segment (s : jsstring) : jsstring := last_segment_from [] s.

(** The populate step: titles, the code pane, the YAML pane and the
    download button. *)
Definition populate (entry : DownloadRecord) : list effect :=
  [SetText CodeTitle
     (lit "Code Python — " ++ or_else (title entry) (lit "Code"));
   SetText YamlTitle
     (lit "YAML / Config — " ++ or_else (title entry) (lit "Config"));
   SetText Info []]
  ++ fill_pane CodeBox RawCodeLink (code_py entry) (code_path entry)
       (lit "Pas de code embarqué. Chemin brut : ")
       (lit "Aucun code python embarqué ni path fourni.")
  ++ fill_pane YamlBox RawYamlLink (code_yaml entry) (yaml_path entry)
       (lit "Pas de YAML embarqué. Chemin brut : ")
       (lit "Aucun YAML embarqué ni path fourni.")
  ++ (if given (filename entry) then
        let name := or_else (filename entry) [] in
        [SetHref DownloadButton
           (encodeURI (lit "files/" ++ strip_slashes name));
         SetDownload DownloadButton (last_segment name);
         SetDisplay DownloadButton (lit "inline-block")]
      else [SetDisplay DownloadButton (lit "none")]).

(** The redirect guard:
    [entry && (entry.liens || '').toString().trim().length]. *)
Definition has_link (entry : DownloadRecord) : bool :=
  negb (Nat.eqb (List.length (trim (or_else (liens entry) []))) 0).

(** The body of the later revision of the script, from the parameter check
    to the download button (the theme buttons before it, and the keyboard
    and copy listeners after it, do not touch what is modelled here).  The
    earlier revision has the same [norm] and [findEntry], no redirect
    guard, and other titles. *)
Definition viewer (downloads : list DownloadRecord) (p : Params)
  : list effect :=
  if negb (given (p_title p)) && negb (given (p_file p)) then
    [SetText Info (lit "Paramètre manquant. Appeler viewer.html?title=Nom%20du%20module ou ?file=nom.zip")]
  else
    match findEntry downloads p with
    | Throw e => [Uncaught e]
    | Normal (Some entry) =>
        if has_link entry then [Navigate (or_else (liens entry) [])]
        else populate entry
    | Normal None => no_match downloads
    end.

End Script.
End Viewer.

(* ================================================================= *)
(** * The converter page *)

Module Converter.
Import JS Num.

Local Open Scope Z_scope.

Section Script.
Variable E : Engine.

(** The three arrays of [parseS2P]. *)
Record Parsed := {
  freqs : list number;
  s11 : list number;
  s21 : list number
}.

Definition no_rows : Parsed := {| freqs := []; s11 := []; s21 := [] |}.

(** [Number(p[i])]; an index past the end reads [undefined], whose Number
    is NaN. *)
Definition field (p : list jsstring) (i : nat) : number :=
  match nth_error p i with
  | Some t => Number t
  | None => S754_nan
  end.

(** [20*Math.log10(Math.hypot(re,im))] *)
Definition dB (re im : number) : number :=
  times (of_Z 20) (Math_log10 E (Math_hypot E re im)).

(** One turn of the loop of [parseS2P]: [continue] leaves the arrays as
    they are. *)
Definition parse_line (acc : Parsed) (line : jsstring) : Parsed :=
  let line := trim line in
  if negb (truthy line) || startsWith line (lit "!")
     || startsWith line (lit "#") then acc
  else
    let p := split_ws line in
    if (List.length p <? 5)%nat then acc
    else
      let f := field p 0 in
      let s11_re := field p 1 in
      let s11_im := field p 2 in
      let s21_re := field p 3 in
      let s21_im := field p 4 in
      if existsb isNaN [f; s11_re; s11_im; s21_re; s21_im] then acc
      else
        {| freqs := freqs acc ++ [f];
           s11 := s11 acc ++ [dB s11_re s11_im];
           s21 := s21 acc ++ [dB s21_re s21_im] |}.

Definition parse_lines (lines : list jsstring) (acc : Parsed) : Parsed :=
  fold_left parse_line lines acc.

(** [parseS2P(text)] *)
Definition parseS2P (text : jsstring) : Parsed :=
  parse_lines (split_lines text) no_rows.

(** One row of [buildDat]; [vals[i]] past the end is [undefined], and
    calling [toFixed] on it a [TypeError]. *)
Definition row (f : number) (v : option number) : completion jsstring :=
  match v with
  | Some x =>
      Normal (NumberToString (Math_round f) ++ [0x09%N] ++ toFixed x 2)
  | None => Throw TypeError
  end.

Fixpoint rows (fs : list number) (vals : list number)
  : completion (list jsstring) :=
  match fs with
  | [] => Normal []
  | f :: fr =>
      r <- row f (hd_error vals) ;;
      rest <- rows fr (tl vals) ;;
      Normal (r :: rest)
  end.

(** [buildDat(freqs, vals, label)] *)
Definition buildDat (fs vals : list number) (label : jsstring)
  : completion jsstring :=
  rs <- rows fs vals ;;
  Normal (join_lines ((lit "# Frequency(Hz)" ++ [0x09%N] ++ label) :: rs)).

(** The link made by [makeDownload(text, name)]: the text of its blob and
    its [download] name. *)
Record Link := {
  blob : jsstring;
  download : jsstring
}.

Definition makeDownload (text name : jsstring) : Link :=
  {| blob := text; download := name |}.

(** The selected file: its name and, when the read succeeds, its text. *)
Record File := {
  name : jsstring;
  content : option jsstring
}.

(** What [status.textContent] holds. *)
Inductive status_text :=
| Text (s : jsstring)
| ErrorText (e : error).      (* ['Erreur : ' + e] *)

(** The part of the page the handler writes. *)
Record Page := {
  generatedLinks : list Link;
  linksDisplay : jsstring;
  status : status_text
}.

(** [f.name.replace(/\.s2p$/i, '')] *)
Definition is_s2p_suffix (t : jsstring) : bool :=
  match t with
  | [d; s; two; p] =>
      ((d =? 0x2E) && ((s =? 0x73) || (s =? 0x53)) && (two =? 0x32)
       && ((p =? 0x70) || (p =? 0x50)))%N
  | _ => false
  end.

Definition base_name (n : jsstring) : jsstring :=
  let k := (List.length n - 4)%nat in
  if is_s2p_suffix (skipn k n) then firstn k n else n.

(** The [try] block of [reader.onload], on the page as the click left it:
    an error thrown half-way leaves what was already appended. *)
Definition on_load (f : File) (text : jsstring) (pg : Page) : Page :=
  let parsed := parseS2P text in
  match freqs parsed with
  | [] =>
      {| generatedLinks := generatedLinks pg;
         linksDisplay := linksDisplay pg;
         status := Text (lit "Aucune donnée valide trouvée.") |}
  | _ =>
      let base := base_name (name f) in
      match buildDat (freqs parsed) (s11 parsed) (lit "S11(dB)") with
      | Throw e =>
          {| generatedLinks := generatedLinks pg;
             linksDisplay := linksDisplay pg;
             status := ErrorText e |}
      | Normal t1 =>
          let links1 :=
            generatedLinks pg ++ [makeDownload t1 (base ++ lit "_S11.dat")] in
          match buildDat (freqs parsed) (s21 parsed) (lit "S21(dB)") with
          | Throw e =>
              {| generatedLinks := links1;
                 linksDisplay := linksDisplay pg;
                 status := ErrorText e |}
          | Normal t2 =>
              {| generatedLinks :=
                   links1 ++ [makeDownload t2 (base ++ lit "_S21.dat")];
                 linksDisplay := lit "block";
                 status :=
                   Text (lit "Conversion OK — "
                         ++ dec_string (Z.of_nat (List.length (freqs parsed)))
                         ++ lit " points générés.") |}
          end
      end
  end.

(** The click handler of the convert button, followed by [reader.onload]
    when the file is read. *)
Definition on_click (selected : option File) (pg : Page) : Page :=
  let cleared :=
    {| generatedLinks := []; linksDisplay := lit "none"; status := Text [] |} in
  match selected with
  | None =>
      {| generatedLinks := [];
         linksDisplay := lit "none";
         status := Text (lit "Choisis un fichier .s2p avant de convertir.") |}
  | Some f =>
      match content f with
      | Some text => on_load f text cleared
      | None => cleared
      end
  end.

End Script.
End Converter.

(* ================================================================= *)
(** * Facts about the host *)

Module HostFacts.
Import JS.

Local Open Scope N_scope.

Lemma str_eqb_eq (a b : jsstring) : str_eqb a b = true <-> a = b.
Proof.
  unfold str_eqb. destruct (list_eq_dec N.eq_dec a b); split; congruence.
Qed.

Lemma str_eqb_refl (a : jsstring) : str_eqb a a = true.
Proof. now apply str_eqb_eq. Qed.

Lemma str_eqb_neq (a b : jsstring) : str_eqb a b = false <-> a <> b.
Proof.
  unfold str_eqb. destruct (list_eq_dec N.eq_dec a b); split; congruence.
Qed.

Lemma excerpt_decomp_ascii c : c < 128 -> excerpt_decomp c = [c].
Proof.
  intros H. unfold excerpt_decomp.
  repeat match goal with
         | |- context [?a =? ?b] => destruct (N.eqb_spec a b); [lia|]
         end.
  reflexivity.
Qed.

Lemma excerpt_ccc_ascii c : c < 128 -> excerpt_ccc c = 0.
Proof.
  intros H. unfold excerpt_ccc.
  repeat match goal with
         | |- context [?a =? ?b] => destruct (N.eqb_spec a b); [lia|]
         end.
  reflexivity.
Qed.

Lemma excerpt_composite_ascii a b : b < 128 -> excerpt_composite a b = None.
Proof.
  intros H. unfold excerpt_composite.
  repeat match goal with
         | |- context [b =? ?k] => destruct (N.eqb_spec b k); [lia|]
         end.
  rewrite !andb_false_r. reflexivity.
Qed.

Lemma excerpt_lower_ascii s :
  is_ascii s -> excerpt_lower s = List.map ascii_lower s.
Proof.
  intros H. unfold excerpt_lower. apply map_ext_in. intros c Hc.
  unfold is_ascii in H. rewrite Forall_forall in H. specialize (H c Hc).
  unfold excerpt_lower_cp, ascii_lower.
  destruct ((0x41 <=? c) && (c <=? 0x5A)); [reflexivity|].
  destruct (N.leb_spec 0xC0 c); [lia|]. reflexivity.
Qed.

Definition ucd_excerpt : UCD :=
  {| decomp := excerpt_decomp;
     ccc := excerpt_ccc;
     primary_composite := excerpt_composite;
     to_lower := excerpt_lower;
     decomp_ascii := excerpt_decomp_ascii;
     ccc_ascii := excerpt_ccc_ascii;
     composite_ascii := excerpt_composite_ascii;
     to_lower_ascii := excerpt_lower_ascii |}.

Lemma is_ascii_lit_autre : is_ascii (lit "autre").
Proof. repeat constructor. Qed.

Lemma to_lower_autre (U : UCD) : toLowerCase U (lit "autre") = lit "autre".
Proof.
  unfold toLowerCase. rewrite to_lower_ascii by apply is_ascii_lit_autre.
  reflexivity.
Qed.

Lemma to_lower_nil (U : UCD) : toLowerCase U [] = [].
Proof.
  unfold toLowerCase. rewrite to_lower_ascii by constructor. reflexivity.
Qed.

(** ** Trimming keeps a leading character that is no white space *)

Lemma trimStart_snoc (l : jsstring) (c : N) :
  is_ws c = false -> trimStart (l ++ [c]) = trimStart l ++ [c].
Proof.
  intros Hc. induction l as [|x l IH]; cbn.
  - now rewrite Hc.
  - destruct (is_ws x); [exact IH | reflexivity].
Qed.

Lemma trimEnd_cons (c : N) (r : jsstring) :
  is_ws c = false -> trimEnd (c :: r) = c :: trimEnd r.
Proof.
  intros Hc. unfold trimEnd. cbn [rev].
  rewrite trimStart_snoc by exact Hc.
  rewrite rev_app_distr. reflexivity.
Qed.

Lemma trim_cons (c : N) (r : jsstring) :
  is_ws c = false -> trim (c :: r) = c :: trimEnd r.
Proof.
  intros Hc. unfold trim. cbn [trimStart]. rewrite Hc.
  now apply trimEnd_cons.
Qed.

Lemma startsWith_char (s : jsstring) (c : N) :
  startsWith s [c] = true -> exists r, s = c :: r.
Proof.
  destruct s as [|b s]; cbn; [discriminate|].
  intros H. apply andb_true_iff in H. destruct H as [H _].
  apply N.eqb_eq in H. subst. now exists s.
Qed.

Lemma includes_nil (s : jsstring) : includes s [] = true.
Proof. destruct s; reflexivity. Qed.

(** [find] returns the first element, in list order, that satisfies the
    predicate. *)
Definition first_satisfying {A} (f : A -> bool) (l : list A) (r : A) : Prop :=
  exists pre post,
    l = pre ++ r :: post /\ f r = true /\ forall d, In d pre -> f d = false.

Lemma find_first {A} (f : A -> bool) (l : list A) (r : A) :
  find f l = Some r <-> first_satisfying f l r.
Proof.
  unfold first_satisfying. induction l as [|x l IH]; simpl.
  - split; [discriminate|]. intros (pre & post & H & _).
    destruct pre; discriminate.
  - destruct (f x) eqn:Hx.
    + split.
      * intros [= <-]. exists [], l. repeat split; auto. intros d [].
      * intros (pre & post & H & Hr & Hpre). destruct pre as [|y pre].
        -- now inversion H.
        -- inversion H; subst y. rewrite (Hpre x) in Hx by now left.
           discriminate.
    + rewrite IH. split.
      * intros (pre & post & -> & Hr & Hpre). exists (x :: pre), post.
        repeat split; auto. intros d [<-|Hd]; auto.
      * intros (pre & post & H & Hr & Hpre). destruct pre as [|y pre].
        -- inversion H; subst. congruence.
        -- inversion H; subst. exists pre, post. repeat split; auto.
           intros d Hd. apply Hpre. now right.
Qed.

Lemma find_none_all {A} (f : A -> bool) (l : list A) :
  (forall d, In d l -> f d = false) -> find f l = None.
Proof.
  intros H. destruct (find f l) eqn:Hf; [|reflexivity].
  apply find_some in Hf. destruct Hf as [Hin Ht].
  rewrite (H _ Hin) in Ht. discriminate.
Qed.

End HostFacts.

(* ================================================================= *)
(** * assets/main.js: the grouping is a partition, the empty search is the
      identity *)

Module MainFacts.
Import JS Data Main HostFacts.

(** The three buckets, and the bucket of an item as the specification words
    it: the category is lower-cased and trimmed; [algorithme] and its
    spellings [algorithm] and [algo] go to the first bucket, [bibliographie]
    and [biblio] to the second, and anything else, or no category, to the
    fallback. *)
Inductive bucket := BAlgorithme | BBibliographie | BAutre.

Definition bucket_eqb (a b : bucket) : bool :=
  match a, b with
  | BAlgorithme, BAlgorithme => true
  | BBibliographie, BBibliographie => true
  | BAutre, BAutre => true
  | _, _ => false
  end.

Definition spec_bucket (U : UCD) (it : DownloadRecord) : bucket :=
  match category it with
  | None => BAutre
  | Some c =>
      let n := trim (toLowerCase U c) in
      if str_eqb n (lit "algorithme") || str_eqb n (lit "algorithm")
         || str_eqb n (lit "algo") then BAlgorithme
      else if str_eqb n (lit "bibliographie") || str_eqb n (lit "biblio")
      then BBibliographie
      else BAutre
  end.

Definition in_bucket (U : UCD) (b : bucket) (it : DownloadRecord) : bool :=
  bucket_eqb (spec_bucket U it) b.

Definition bucket_key (b : bucket) : jsstring :=
  match b with
  | BAlgorithme => lit "algorithme"
  | BBibliographie => lit "bibliographie"
  | BAutre => lit "autre"
  end.

Ltac split_eqb n s :=
  let H := fresh "H" in
  destruct (str_eqb n s) eqn:H;
  [apply str_eqb_eq in H; try (rewrite H; reflexivity)|].

(** The key of the script, from the lower-cased and trimmed category. *)
Lemma key_from_normal (n : jsstring) :
  (let cat :=
     if str_eqb n (lit "algorithm") || str_eqb n (lit "algo")
     then lit "algorithme" else n in
   let cat := if str_eqb cat (lit "biblio") then lit "bibliographie" else cat in
   if existsb (str_eqb cat) categories then cat else lit "autre")
  = bucket_key
      (if str_eqb n (lit "algorithme") || str_eqb n (lit "algorithm")
          || str_eqb n (lit "algo") then BAlgorithme
       else if str_eqb n (lit "bibliographie") || str_eqb n (lit "biblio")
       then BBibliographie
       else BAutre).
Proof.
  split_eqb n (lit "algorithm"). split_eqb n (lit "algo").
  split_eqb n (lit "biblio").
  split_eqb n (lit "algorithme"). split_eqb n (lit "bibliographie").
  cbn [orb]. cbn zeta. rewrite H1. unfold categories, existsb.
  rewrite H2, H3. cbn [orb].
  split_eqb n (lit "autre"). reflexivity.
Qed.

Lemma key_of_bucket (U : UCD) (it : DownloadRecord) :
  key_of U it = bucket_key (spec_bucket U it).
Proof.
  unfold key_of, spec_bucket, or_else.
  destruct (category it) as [c|].
  - destruct c as [|c0 c]; cbn [truthy].
    + rewrite to_lower_autre, to_lower_nil. reflexivity.
    + apply key_from_normal.
  - rewrite to_lower_autre. reflexivity.
Qed.

Lemma push_group_bucket (U : UCD) (g : Grouped) (it : DownloadRecord) :
  push_group g (key_of U it) it =
  Normal
    {| algorithme :=
         algorithme g ++ filter (in_bucket U BAlgorithme) [it];
       bibliographie :=
         bibliographie g ++ filter (in_bucket U BBibliographie) [it];
       autre := autre g ++ filter (in_bucket U BAutre) [it] |}.
Proof.
  rewrite key_of_bucket. unfold in_bucket. cbn [filter].
  destruct (spec_bucket U it); cbn [bucket_eqb bucket_key];
    rewrite ?app_nil_r; reflexivity.
Qed.

Lemma group_items_from (U : UCD) (l : list DownloadRecord) (g : Grouped) :
  fold_left (fun acc it => g <- acc ;; push_group g (key_of U it) it)
            l (Normal g) =
  Normal
    {| algorithme := algorithme g ++ filter (in_bucket U BAlgorithme) l;
       bibliographie :=
         bibliographie g ++ filter (in_bucket U BBibliographie) l;
       autre := autre g ++ filter (in_bucket U BAutre) l |}.
Proof.
  revert g. induction l as [|it l IH]; intros g.
  - cbn. rewrite !app_nil_r. now destruct g.
  - cbn [fold_left bind]. rewrite push_group_bucket, IH.
    cbn [algorithme bibliographie autre].
    rewrite <- !app_assoc.
    change (it :: l) with ([it] ++ l). rewrite !filter_app. reflexivity.
Qed.

Lemma buckets_permutation (U : UCD) (l : list DownloadRecord) :
  Permutation l
    (filter (in_bucket U BAlgorithme) l
     ++ filter (in_bucket U BBibliographie) l
     ++ filter (in_bucket U BAutre) l).
Proof.
  induction l as [|it l IH]; [constructor|].
  unfold in_bucket in *. cbn [filter].
  destruct (spec_bucket U it); cbn [bucket_eqb].
  - cbn. now constructor.
  - apply Permutation_cons_app. exact IH.
  - rewrite app_assoc. apply Permutation_cons_app. rewrite <- app_assoc.
    exact IH.
Qed.

(** C5.  The first loop of [render] never fails and partitions the list: the
    three arrays are the items of the first, of the second and of the
    fallback bucket, each in the order of the source list ([filter] keeps
    the order); [algorithm] and [algo] fold into [algorithme] and [biblio]
    into [bibliographie] after lower-casing and trimming, everything else
    and the absent category fall into [autre] (this is [spec_bucket]); the
    three arrays together are a permutation of the list, and an item of the
    list is in the array of its bucket and in no other. *)
Theorem group_items_partition (U : UCD) (l : list DownloadRecord) :
  let g := {| algorithme := filter (in_bucket U BAlgorithme) l;
              bibliographie := filter (in_bucket U BBibliographie) l;
              autre := filter (in_bucket U BAutre) l |} in
  group_items U l = Normal g
  /\ Permutation l (algorithme g ++ bibliographie g ++ autre g)
  /\ (forall it, In it l ->
        (In it (algorithme g) <-> spec_bucket U it = BAlgorithme)
        /\ (In it (bibliographie g) <-> spec_bucket U it = BBibliographie)
        /\ (In it (autre g) <-> spec_bucket U it = BAutre)).
Proof.
  cbn zeta. split; [|split].
  - unfold group_items. rewrite group_items_from. reflexivity.
  - cbn [algorithme bibliographie autre]. apply buckets_permutation.
  - intros it Hin. cbn [algorithme bibliographie autre].
    rewrite !filter_In. unfold in_bucket.
    destruct (spec_bucket U it); cbn [bucket_eqb];
      repeat split; intros; try tauto; try discriminate;
      match goal with H : _ /\ _ |- _ => destruct H; discriminate end.
Qed.

(** [render] shows the three buckets, each in the order of the list. *)
Lemma render_buckets (U : UCD) (l : list DownloadRecord) :
  render U l =
  Normal (show_list (filter (in_bucket U BAlgorithme) l),
          show_list (filter (in_bucket U BBibliographie) l),
          show_list (filter (in_bucket U BAutre) l)).
Proof.
  unfold render, group_items. rewrite group_items_from. reflexivity.
Qed.

(** C6.  With the empty query [filterItems] returns the catalogue itself:
    the same items, in the same order. *)
Theorem filterItems_empty_query (U : UCD) (items : list DownloadRecord) :
  filterItems U items [] = items.
Proof. reflexivity. Qed.

(** Whatever the query, the result keeps the order of the catalogue. *)
Lemma filterItems_filter (U : UCD) (items : list DownloadRecord) (q : jsstring) :
  exists f, filterItems U items q = filter f items.
Proof.
  unfold filterItems. destruct (truthy q); cbn [negb].
  - eexists. reflexivity.
  - exists (fun _ => true). induction items; cbn; congruence.
Qed.

(** A catalogue of four entries in three spellings, grouped. *)
Definition item (name cat : prop) : DownloadRecord :=
  {| filename := name; title := None; category := cat; description := None;
     code_py := None; code_yaml := None; code_path := None;
     yaml_path := None; liens := None |}.

Example group_items_sample :
  let a := item (Some (lit "a.zip")) (Some (lit " Algo ")) in
  let b := item (Some (lit "b.pdf")) (Some (lit "BIBLIO")) in
  let c := item (Some (lit "c.zip")) None in
  let d := item (Some (lit "d.zip")) (Some (lit "algorithm")) in
  group_items ucd_excerpt [a; b; c; d]
  = Normal {| algorithme := [a; d]; bibliographie := [b]; autre := [c] |}.
Proof. reflexivity. Qed.

End MainFacts.

(* ================================================================= *)
(** * The converter: skipped lines, zero magnitude, no data *)

Module ConverterFacts.
Import JS Num Converter HostFacts.

(** ** The lines that are skipped *)

(** The tokens of a line: its pieces between runs of white space, the white
    space at both ends set aside. *)
Definition tokens (line : jsstring) : list jsstring := split_ws (trim line).

(** A token parses as a number when [Number] does not give NaN. *)
Definition parses_as_number (t : jsstring) : bool := negb (isNaN (Number t)).

Inductive skipped (line : jsstring) : Prop :=
| skipped_empty : line = [] -> skipped line
| skipped_hash : startsWith line (lit "#") = true -> skipped line
| skipped_bang : startsWith line (lit "!") = true -> skipped line
| skipped_short : List.length (tokens line) < 5 -> skipped line
| skipped_not_numeric :
    forallb parses_as_number (firstn 5 (tokens line)) = false ->
    skipped line.

Lemma parse_line_skipped (E : Engine) (acc : Parsed) (line : jsstring) :
  skipped line -> parse_line E acc line = acc.
Proof.
  intros H. unfold parse_line. destruct H as [H|H|H|H|H].
  - subst. reflexivity.
  - apply startsWith_char in H. destruct H as [r ->].
    rewrite trim_cons by reflexivity. reflexivity.
  - apply startsWith_char in H. destruct H as [r ->].
    rewrite trim_cons by reflexivity. reflexivity.
  - fold (tokens line).
    destruct (negb (truthy (trim line)) || _ || _); [reflexivity|].
    apply Nat.ltb_lt in H. now rewrite H.
  - fold (tokens line).
    destruct (negb (truthy (trim line)) || _ || _); [reflexivity|].
    destruct (List.length (tokens line) <? 5)%nat eqn:Hlen; [reflexivity|].
    apply Nat.ltb_ge in Hlen.
    destruct (tokens line) as [|t0 [|t1 [|t2 [|t3 [|t4 rest]]]]];
      cbn in Hlen; try lia.
    cbn [firstn forallb] in H. unfold parses_as_number in H.
    unfold field. cbn [nth_error existsb].
    destruct (isNaN (Number t0)), (isNaN (Number t1)), (isNaN (Number t2)),
      (isNaN (Number t3)), (isNaN (Number t4));
      cbn in H |- *; congruence.
Qed.

Lemma parse_lines_app (E : Engine) (l1 l2 : list jsstring) (acc : Parsed) :
  parse_lines E (l1 ++ l2) acc = parse_lines E l2 (parse_lines E l1 acc).
Proof. unfold parse_lines. apply fold_left_app. Qed.

(** C7.  A line of the input that is empty, begins with [#] or [!], has
    fewer than 5 tokens, or has a token among the first 5 that does not
    parse as a number, leaves the three arrays as they are, and the
    conversion of the whole text is the conversion of the other lines:
    the line adds no row to either output and does not stop the loop
    ([parseS2P] is a total function: nothing in it can throw). *)
Theorem skipped_line_adds_no_row (E : Engine) (text : jsstring)
        (before : list jsstring) (line : jsstring) (after : list jsstring) :
  split_lines text = before ++ line :: after ->
  skipped line ->
  (forall acc, parse_line E acc line = acc)
  /\ parseS2P E text = parse_lines E (before ++ after) no_rows.
Proof.
  intros Hsplit Hskip. split.
  - intros acc. now apply parse_line_skipped.
  - unfold parseS2P, parse_lines. rewrite Hsplit, !fold_left_app.
    cbn [fold_left]. rewrite parse_line_skipped by exact Hskip.
    reflexivity.
Qed.

(** ** The three arrays grow together *)

Lemma parse_line_lengths (E : Engine) (acc : Parsed) (line : jsstring) :
  List.length (s11 acc) = List.length (freqs acc) ->
  List.length (s21 acc) = List.length (freqs acc) ->
  List.length (s11 (parse_line E acc line))
  = List.length (freqs (parse_line E acc line))
  /\ List.length (s21 (parse_line E acc line))
     = List.length (freqs (parse_line E acc line)).
Proof.
  intros H1 H2. unfold parse_line.
  destruct (negb (truthy (trim line)) || _ || _); [now split|].
  destruct (List.length (split_ws (trim line)) <? 5)%nat; [now split|].
  destruct (existsb isNaN _); [now split|].
  cbn [freqs s11 s21]. rewrite !length_app. cbn. lia.
Qed.

Lemma parse_lines_lengths (E : Engine) (lines : list jsstring) (acc : Parsed) :
  List.length (s11 acc) = List.length (freqs acc) ->
  List.length (s21 acc) = List.length (freqs acc) ->
  List.length (s11 (parse_lines E lines acc))
  = List.length (freqs (parse_lines E lines acc))
  /\ List.length (s21 (parse_lines E lines acc))
     = List.length (freqs (parse_lines E lines acc)).
Proof.
  revert acc. induction lines as [|l lines IH]; intros acc H1 H2.
  - now split.
  - unfold parse_lines in *. cbn [fold_left].
    destruct (parse_line_lengths E acc l H1 H2) as [H3 H4].
    now apply IH.
Qed.

(** With as many values as frequencies [buildDat] returns a text. *)
Lemma rows_normal (fs vals : list number) :
  List.length vals = List.length fs -> exists rs, rows fs vals = Normal rs.
Proof.
  revert vals. induction fs as [|f fs IH]; intros vals H.
  - now exists [].
  - destruct vals as [|v vals]; [discriminate|].
    cbn in H. injection H as H.
    destruct (IH vals H) as [rs Hrs].
    cbn. rewrite Hrs. cbn. eauto.
Qed.

Lemma buildDat_parsed (E : Engine) (text label : jsstring) :
  (exists t, buildDat (freqs (parseS2P E text)) (s11 (parseS2P E text)) label
             = Normal t)
  /\ (exists t, buildDat (freqs (parseS2P E text)) (s21 (parseS2P E text))
                         label = Normal t).
Proof.
  destruct (parse_lines_lengths E (split_lines text) no_rows eq_refl eq_refl)
    as [H1 H2].
  fold (parseS2P E text) in H1, H2.
  destruct (rows_normal _ _ H1) as [r1 Hr1].
  destruct (rows_normal _ _ H2) as [r2 Hr2].
  unfold buildDat. rewrite Hr1, Hr2. cbn. eauto.
Qed.

(** ** Zero magnitude *)

(** The decibel value of a pair of zeros is minus infinity, whatever the
    signs of the zeros and whatever the engine. *)
Lemma dB_zero_magnitude (E : Engine) (re im : number) :
  is_zero re = true -> is_zero im = true -> dB E re im = neg_infinity.
Proof.
  destruct re; try discriminate. destruct im; try discriminate.
  intros _ _. reflexivity.
Qed.

Lemma toFixed_neg_infinity : toFixed neg_infinity 2 = lit "-Infinity".
Proof. reflexivity. Qed.

(** What the sentinel of the Python reference would print. *)
Lemma toFixed_sentinel : toFixed (of_Z (-100)) 2 = lit "-100.00".
Proof. reflexivity. Qed.

Definition zero_line : jsstring := lit "1000 0 0 1 0".

(** C1.  On the data line [1000 0 0 1 0] (s11_real = 0 and s11_imag = 0)
    [parseS2P] stores minus infinity for S11, and the S11 table built from
    it carries the row [1000<TAB>-Infinity]: nothing throws, but the row
    does not carry the sentinel [-100.00] of the Python reference shown on
    the same page. *)
Theorem zero_magnitude_row (E : Engine) :
  freqs (parseS2P E zero_line) = [of_Z 1000]
  /\ s11 (parseS2P E zero_line) = [neg_infinity]
  /\ buildDat (freqs (parseS2P E zero_line)) (s11 (parseS2P E zero_line))
              (lit "S11(dB)")
     = Normal (lit "# Frequency(Hz)" ++ [9%N] ++ lit "S11(dB)" ++ [10%N]
               ++ lit "1000" ++ [9%N] ++ lit "-Infinity")
  /\ toFixed neg_infinity 2 <> lit "-100.00".
Proof.
  repeat split; try reflexivity. discriminate.
Qed.

(** ** No valid row *)

Definition no_data_message : jsstring := lit "Aucune donnée valide trouvée.".

Lemma ok_message_differs (x : jsstring) :
  lit "Conversion OK — " ++ x <> no_data_message.
Proof. intros H. vm_compute in H. discriminate. Qed.

(** C8.  When the text of the selected file parses to zero rows, the click
    leaves the page with no download link, the link area hidden, and the
    status "Aucune donnée valide trouvée."; and the handler shows that
    status in no other case. *)
Theorem no_valid_row_no_link (E : Engine) (f : File) (text : jsstring)
        (pg : Page) :
  content f = Some text ->
  freqs (parseS2P E text) = [] ->
  on_click E (Some f) pg =
    {| generatedLinks := [];
       linksDisplay := lit "none";
       status := Text no_data_message |}
  /\ (forall selected pg',
        status (on_click E selected pg') = Text no_data_message ->
        exists f' text',
          selected = Some f' /\ content f' = Some text'
          /\ freqs (parseS2P E text') = []).
Proof.
  intros Hc Hf. split.
  - unfold on_click, on_load. rewrite Hc, Hf. reflexivity.
  - intros selected pg' H. unfold on_click in H.
    destruct selected as [f'|].
    + destruct (content f') as [text'|] eqn:Hc'.
      * exists f', text'. repeat split; auto.
        unfold on_load in H.
        destruct (freqs (parseS2P E text')) as [|x l] eqn:Hf'; [reflexivity|].
        exfalso.
        destruct (buildDat (x :: l) (s11 (parseS2P E text')) _);
          [|discriminate].
        destruct (buildDat (x :: l) (s21 (parseS2P E text')) _);
          [|discriminate].
        cbn [status] in H.
        match type of H with
        | Text (_ ++ ?x) = _ => apply (@ok_message_differs x)
        end.
        congruence.
      * cbn [status] in H. vm_compute in H. discriminate.
    + cbn [status] in H. vm_compute in H. discriminate.
Qed.

(** ** The script at work *)

(** The line of the specification: [1000000 1 0 0.5 0.5] gives the rows
    [1000000<TAB>0.00] and [1000000<TAB>-3.01]. *)
Example round_trip_line :
  let r := parseS2P plain_engine (lit "1000000 1 0 0.5 0.5") in
  buildDat (freqs r) (s11 r) (lit "S11(dB)")
  = Normal (lit "# Frequency(Hz)" ++ [9%N] ++ lit "S11(dB)" ++ [10%N]
            ++ lit "1000000" ++ [9%N] ++ lit "0.00")
  /\ buildDat (freqs r) (s21 r) (lit "S21(dB)")
     = Normal (lit "# Frequency(Hz)" ++ [9%N] ++ lit "S21(dB)" ++ [10%N]
               ++ lit "1000000" ++ [9%N] ++ lit "-3.01").
Proof. vm_compute. split; reflexivity. Qed.

Definition three_lines : jsstring :=
  lit "1000 1 0 1 0" ++ [10%N] ++ lit "1000 1 0 x" ++ [10%N]
  ++ lit "2000 1 0 1 0".

Lemma skipped_line_adds_no_row_witness :
  skipped (lit "1000 1 0 x")
  /\ parseS2P plain_engine three_lines
     = parse_lines plain_engine [lit "1000 1 0 1 0"; lit "2000 1 0 1 0"]
                   no_rows.
Proof.
  assert (H : skipped (lit "1000 1 0 x")).
  { apply skipped_short. vm_compute. apply le_n. }
  split; [exact H|].
  apply (@skipped_line_adds_no_row plain_engine three_lines
           [lit "1000 1 0 1 0"] (lit "1000 1 0 x") [lit "2000 1 0 1 0"]).
  - reflexivity.
  - exact H.
Defined.

Definition comment_only : File :=
  {| name := lit "mesure.s2p"; content := Some (lit "# Hz S RI R 50") |}.

Definition blank_page : Page :=
  {| generatedLinks := []; linksDisplay := lit "block"; status := Text [] |}.

Lemma no_valid_row_no_link_witness :
  on_click plain_engine (Some comment_only) blank_page =
  {| generatedLinks := [];
     linksDisplay := lit "none";
     status := Text no_data_message |}.
Proof.
  apply (@no_valid_row_no_link plain_engine comment_only
           (lit "# Hz S RI R 50") blank_page).
  - reflexivity.
  - reflexivity.
Defined.

End ConverterFacts.

(* ================================================================= *)
(** * The viewer: the tiers of the matcher and the redirect *)

Module ViewerFacts.
Import JS Data Viewer HostFacts.

(** ** The tiers of a title query

    The four strategies of the block [if(p.title)], as predicates on an
    entry.  The second one holds for no entry when the query does not
    decode. *)
Definition tier_exact (q : jsstring) (d : DownloadRecord) : bool :=
  str_eqb (or_else (title d) []) q.

Definition tier_decoded (q : jsstring) (d : DownloadRecord) : bool :=
  match decodeURIComponent q with
  | Normal dec => str_eqb (or_else (title d) []) dec
  | Throw _ => false
  end.

Definition tier_normalized (U : UCD) (q : jsstring) (d : DownloadRecord)
  : bool :=
  str_eqb (norm U (title d)) (norm U (Some q)).

Definition tier_substring (U : UCD) (q : jsstring) (d : DownloadRecord)
  : bool :=
  includes (norm U (title d)) (norm U (Some q)).

Definition title_tier_list (U : UCD) (q : jsstring)
  : list (DownloadRecord -> bool) :=
  [tier_exact q; tier_decoded q; tier_normalized U q; tier_substring U q].

(** The parameter [title] is a title query when it is truthy: the test of
    the script, both at its top ([!p.title && !p.file]) and in
    [findEntry] ([if(p.title)]). *)
Definition title_query (p : Params) (q : jsstring) : Prop :=
  p_title p = Some q /\ truthy q = true.

Lemma find_pointwise {A} (f g : A -> bool) (l : list A) :
  (forall x, f x = g x) -> find f l = find g l.
Proof.
  intros H. induction l as [|x l IH]; cbn; [reflexivity|].
  rewrite H, IH. reflexivity.
Qed.

Lemma title_tiers_cascade (U : UCD) (downloads : list DownloadRecord)
      (q : jsstring) :
  title_tiers U downloads q =
  match find (tier_exact q) downloads with
  | Some entry => Some entry
  | None =>
      match find (tier_decoded q) downloads with
      | Some entry => Some entry
      | None =>
          match find (tier_normalized U q) downloads with
          | Some entry => Some entry
          | None => find (tier_substring U q) downloads
          end
      end
  end.
Proof.
  unfold title_tiers. fold (tier_exact q).
  destruct (find (tier_exact q) downloads); [reflexivity|].
  assert (Hdec :
    try_catch
      (dec <- decodeURIComponent q ;;
       Normal (find (fun d => str_eqb (or_else (title d) []) dec) downloads))
      None
    = find (tier_decoded q) downloads).
  { unfold tier_decoded. destruct (decodeURIComponent q) as [dec|e]; cbn.
    - reflexivity.
    - symmetry. now apply find_none_all. }
  rewrite Hdec. reflexivity.
Qed.

Lemma findEntry_title_query (U : UCD) (downloads : list DownloadRecord)
      (p : Params) (q : jsstring) (r : DownloadRecord) :
  title_query p q ->
  title_tiers U downloads q = Some r ->
  findEntry U downloads p = Normal (Some r).
Proof.
  intros [Hp Hq] Ht. unfold findEntry.
  destruct downloads as [|d0 rest].
  - rewrite title_tiers_cascade in Ht. discriminate.
  - rewrite Hp. cbn [given or_else]. rewrite Hq, Ht. reflexivity.
Qed.

Lemma title_exactly (q : jsstring) (d : DownloadRecord) :
  truthy q = true -> (tier_exact q d = true <-> title d = Some q).
Proof.
  intros Hq. unfold tier_exact. rewrite str_eqb_eq. unfold or_else.
  destruct (title d) as [t|].
  - destruct (truthy t) eqn:Ht.
    + split; congruence.
    + split; intros H.
      * subst q. discriminate.
      * injection H as ->. congruence.
  - split; intros H; [subst q|]; discriminate.
Qed.

(** C3.  For a title query [q] (a truthy [title] parameter): when some
    entry of the list has the title [q], [findEntry] returns the first
    entry of the list whose title is [q], whatever the other tiers and the
    [file] parameter would give; and in general, when tier [k] is the
    earliest tier some entry satisfies, [findEntry] returns the first entry
    of the list that satisfies tier [k]. *)
Theorem title_match_first_of_earliest_tier (U : UCD)
        (downloads : list DownloadRecord) (p : Params) (q : jsstring) :
  title_query p q ->
  (forall r, In r downloads -> title r = Some q ->
     exists r0 pre post,
       downloads = pre ++ r0 :: post
       /\ title r0 = Some q
       /\ (forall d, In d pre -> title d <> Some q)
       /\ findEntry U downloads p = Normal (Some r0))
  /\ (forall k tier r,
        nth_error (title_tier_list U q) k = Some tier ->
        (forall j earlier d,
           j < k -> nth_error (title_tier_list U q) j = Some earlier ->
           In d downloads -> earlier d = false) ->
        first_satisfying tier downloads r ->
        findEntry U downloads p = Normal (Some r)).
Proof.
  intros Hq. split.
  - intros r Hin Ht.
    destruct (find (tier_exact q) downloads) as [r0|] eqn:Hf.
    + pose proof Hf as Hfirst. apply find_first in Hfirst.
      destruct Hfirst as (pre & post & Hl & Hr0 & Hpre).
      exists r0, pre, post. repeat split; auto.
      * now apply (title_exactly q r0 (proj2 Hq)).
      * intros d Hd Habs.
        apply (title_exactly q d (proj2 Hq)) in Habs.
        rewrite (Hpre d Hd) in Habs. discriminate.
      * apply (findEntry_title_query U downloads Hq).
        rewrite title_tiers_cascade, Hf. reflexivity.
    + exfalso. apply find_none with (x := r) in Hf; [|exact Hin].
      apply (title_exactly q r (proj2 Hq)) in Ht. congruence.
  - intros k tier r Hk Hearlier Hfirst.
    apply (findEntry_title_query U downloads Hq).
    rewrite title_tiers_cascade.
    apply find_first in Hfirst.
    assert (Hnone : forall j earlier,
               j < k -> nth_error (title_tier_list U q) j = Some earlier ->
               find earlier downloads = None).
    { intros j earlier Hj Hnth. apply find_none_all.
      intros d Hd. exact (Hearlier j earlier d Hj Hnth Hd). }
    destruct k as [|[|[|[|k]]]]; cbn in Hk.
    + injection Hk as <-. now rewrite Hfirst.
    + injection Hk as <-.
      rewrite (Hnone 0 (tier_exact q)) by (auto; lia).
      now rewrite Hfirst.
    + injection Hk as <-.
      rewrite (Hnone 0 (tier_exact q)) by (auto; lia).
      rewrite (Hnone 1 (tier_decoded q)) by (auto; lia).
      now rewrite Hfirst.
    + injection Hk as <-.
      rewrite (Hnone 0 (tier_exact q)) by (auto; lia).
      rewrite (Hnone 1 (tier_decoded q)) by (auto; lia).
      rewrite (Hnone 2 (tier_normalized U q)) by (auto; lia).
      exact Hfirst.
    + destruct k; discriminate.
Qed.

(** C10.  For a non-empty list and a title query that normalises to the
    empty string, every entry satisfies the substring tier, and when no
    entry satisfies an earlier tier [findEntry] returns the first entry of
    the list. *)
Theorem blank_title_query_first_record (U : UCD) (d0 : DownloadRecord)
        (rest : list DownloadRecord) (p : Params) (q : jsstring) :
  title_query p q ->
  norm U (Some q) = [] ->
  (forall d, In d (d0 :: rest) ->
     tier_exact q d = false /\ tier_decoded q d = false
     /\ tier_normalized U q d = false) ->
  (forall d, tier_substring U q d = true)
  /\ findEntry U (d0 :: rest) p = Normal (Some d0).
Proof.
  intros Hq Hn Hearlier.
  assert (Hall : forall d, tier_substring U q d = true).
  { intros d. unfold tier_substring. rewrite Hn. apply includes_nil. }
  split; [exact Hall|].
  apply (findEntry_title_query U (d0 :: rest) Hq).
  rewrite title_tiers_cascade.
  rewrite (find_none_all (tier_exact q))
    by (intros d Hd; apply (Hearlier d Hd)).
  rewrite (find_none_all (tier_decoded q))
    by (intros d Hd; apply (Hearlier d Hd)).
  rewrite (find_none_all (tier_normalized U q))
    by (intros d Hd; apply (Hearlier d Hd)).
  cbn [find]. now rewrite Hall.
Qed.

(** ** Decoding failures *)

(** The title block swallows the error of [decodeURIComponent]: with a
    title parameter alone [findEntry] always returns. *)
Lemma title_only_returns (U : UCD) (downloads : list DownloadRecord)
      (t : prop) :
  exists r, findEntry U downloads {| p_title := t; p_file := None |} = Normal r.
Proof.
  unfold findEntry. destruct downloads; [eauto|].
  cbn [p_title p_file given].
  destruct (if given t then _ else _); eauto.
Qed.

(** The file blocks return when the file parameter decodes. *)
Lemma file_tiers_returns (U : UCD) (downloads : list DownloadRecord)
      (f dec : jsstring) :
  decodeURIComponent f = Normal dec ->
  exists r, file_tiers U downloads f = Normal r.
Proof.
  intros Hd. unfold file_tiers.
  assert (H : exists r,
    findM (fun d =>
             if str_eqb (or_else (filename d) []) f then Normal true
             else
               dec <- decodeURIComponent f ;;
               Normal (str_eqb (or_else (filename d) []) dec))
          downloads = Normal r).
  { rewrite Hd. induction downloads as [|d l IH]; cbn; [eauto|].
    destruct (str_eqb (or_else (filename d) []) f); cbn; [eauto|].
    destruct (str_eqb (or_else (filename d) []) dec); [eauto|exact IH]. }
  destruct H as [r ->]. cbn.
  destruct r; [eauto|].
  destruct (find _ downloads); eauto.
Qed.

(** They throw when it does not and the search reaches an entry with
    another file name; the first entry is enough. *)
Lemma undecodable_file_query_throws (U : UCD) (d : DownloadRecord)
      (rest : list DownloadRecord) (f : jsstring) (e : error) :
  truthy f = true ->
  decodeURIComponent f = Throw e ->
  or_else (filename d) [] <> f ->
  findEntry U (d :: rest) {| p_title := None; p_file := Some f |} = Throw e.
Proof.
  intros Hf Hd Hne. unfold findEntry. cbn [p_title p_file given or_else].
  rewrite Hf. unfold file_tiers. cbn [findM].
  apply str_eqb_neq in Hne. rewrite Hne, Hd. reflexivity.
Qed.

Definition sample_record : DownloadRecord :=
  {| filename := Some (lit "a.zip");
     title := Some (lit "Mon Bundle");
     category := None; description := None;
     code_py := None; code_yaml := None;
     code_path := None; yaml_path := None;
     liens := None |}.

(** C2.  With the catalogue of one entry [a.zip] and the query
    [?file=%25], whose value is the string [%], [decodeURIComponent]
    throws, and the error leaves the predicate of the first file block,
    [findEntry] and the script: no later tier is tried and no recovery list
    is shown.  (The same string as a title is swallowed by the [try] of the
    title block: [title_only_returns].) *)
Theorem file_query_decode_error_escapes (U : UCD) :
  decodeURIComponent (lit "%") = Throw URIError
  /\ findEntry U [sample_record]
               {| p_title := None; p_file := Some (lit "%") |}
     = Throw URIError
  /\ viewer U [sample_record]
            {| p_title := None; p_file := Some (lit "%") |}
     = [Uncaught URIError].
Proof.
  repeat split; reflexivity.
Qed.

(** ** The redirect *)

Lemma findEntry_needs_parameter (U : UCD) (downloads : list DownloadRecord)
      (p : Params) (r : DownloadRecord) :
  findEntry U downloads p = Normal (Some r) ->
  negb (given (p_title p)) && negb (given (p_file p)) = false.
Proof.
  unfold findEntry. destruct downloads; [discriminate|].
  destruct (given (p_title p)); [reflexivity|].
  destruct (given (p_file p)); [reflexivity|discriminate].
Qed.

(** C4.  When [findEntry] returns an entry whose [liens] is not empty after
    trimming, all the script does to the page is to navigate to the value
    of [liens]: the populate step is not reached, and no text is written to
    the code box, the YAML box or any other element. *)
Theorem linked_entry_redirects (U : UCD) (downloads : list DownloadRecord)
        (p : Params) (entry : DownloadRecord) (l : jsstring) :
  findEntry U downloads p = Normal (Some entry) ->
  liens entry = Some l ->
  truthy (trim l) = true ->
  viewer U downloads p = [Navigate l]
  /\ (forall el s, ~ In (SetText el s) (viewer U downloads p)).
Proof.
  intros Hf Hl Ht.
  assert (Hv : viewer U downloads p = [Navigate l]).
  { unfold viewer.
    rewrite (findEntry_needs_parameter U downloads p Hf), Hf.
    unfold has_link. rewrite Hl.
    assert (Hor : or_else (Some l) [] = l).
    { unfold or_else. destruct l; reflexivity. }
    rewrite Hor. destruct (trim l); [discriminate|reflexivity]. }
  split; [exact Hv|].
  intros el s Hin. rewrite Hv in Hin.
  destruct Hin as [Hin|[]]. discriminate.
Qed.

(** ** Normalisation of Basic Latin strings *)

Local Open Scope N_scope.

Lemma flat_map_decomp_ascii (U : UCD) (s : jsstring) :
  is_ascii s -> flat_map (decomp U) s = s.
Proof.
  induction 1 as [|c s Hc _ IH]; cbn; [reflexivity|].
  rewrite (decomp_ascii U Hc), IH. reflexivity.
Qed.

Lemma reorder_ascii (U : UCD) (s : jsstring) :
  is_ascii s -> reorder U [] s = s.
Proof.
  induction 1 as [|c s Hc _ IH]; cbn; [reflexivity|].
  rewrite (ccc_ascii U Hc), IH. reflexivity.
Qed.

Lemma compose_from_ascii (U : UCD) (s : jsstring) :
  is_ascii s ->
  forall done st pend lastc,
    compose_from U done st pend lastc s = rev done ++ st :: rev pend ++ s.
Proof.
  induction 1 as [|c s Hc _ IH]; intros done st pend lastc; cbn.
  - now rewrite app_nil_r.
  - rewrite (composite_ascii U st Hc), (ccc_ascii U Hc). cbn.
    rewrite IH. cbn. rewrite rev_app_distr. cbn.
    rewrite <- !app_assoc. reflexivity.
Qed.

Lemma compose_ascii (U : UCD) (s : jsstring) :
  is_ascii s -> compose U s = s.
Proof.
  intros H. destruct H as [|c s Hc Hs]; [reflexivity|].
  unfold compose. now rewrite compose_from_ascii.
Qed.

Lemma normalize_NFKC_ascii (U : UCD) (s : jsstring) :
  is_ascii s -> normalize_NFKC U s = s.
Proof.
  intros H. unfold normalize_NFKC.
  rewrite flat_map_decomp_ascii, reorder_ascii, compose_ascii; auto.
Qed.

(** [norm] on a Basic Latin string. *)
Definition norm_ascii (s : jsstring) : jsstring :=
  collapse_ws (trim (List.map ascii_lower s)).

Lemma norm_on_ascii (U : UCD) (s : jsstring) :
  is_ascii s -> norm U (Some s) = norm_ascii s.
Proof.
  intros H. unfold norm, norm_ascii.
  destruct s as [|c s]; [reflexivity|]. cbn [truthy].
  rewrite normalize_NFKC_ascii by exact H.
  unfold toLowerCase. now rewrite to_lower_ascii.
Qed.

(** A property of characters that white space removal keeps. *)
Section Kept.
Variable P : N -> Prop.

Lemma trimStart_Forall (s : jsstring) :
  Forall P s -> Forall P (trimStart s).
Proof.
  induction 1 as [|c s Hc Hs IH]; cbn; [constructor|].
  destruct (is_ws c); [exact IH | now constructor].
Qed.

Lemma trim_Forall (s : jsstring) : Forall P s -> Forall P (trim s).
Proof.
  intros H. unfold trim, trimEnd.
  apply Forall_rev, trimStart_Forall, Forall_rev, trimStart_Forall, H.
Qed.

Lemma collapse_Forall (s : jsstring) :
  P 0x20 -> Forall P s -> forall b, Forall P (collapse_from b s).
Proof.
  intros Hsp. induction 1 as [|c s Hc Hs IH]; intros b; cbn; [constructor|].
  destruct (is_ws c); [destruct b|]; auto.
Qed.

End Kept.

Lemma ascii_lower_ascii (c : N) : c < 128 -> ascii_lower c < 128.
Proof.
  unfold ascii_lower. intros H.
  destruct (N.leb_spec 0x41 c), (N.leb_spec c 0x5A); cbn; lia.
Qed.

Lemma ascii_lower_twice (c : N) : ascii_lower (ascii_lower c) = ascii_lower c.
Proof.
  unfold ascii_lower.
  destruct ((0x41 <=? c) && (c <=? 0x5A)) eqn:H.
  - apply andb_true_iff in H. destruct H as [H1 H2].
    apply N.leb_le in H1, H2.
    assert (H3 : (c + 32 <=? 0x5A) = false) by (apply N.leb_gt; lia).
    now rewrite H3, andb_false_r.
  - now rewrite H.
Qed.

Lemma norm_ascii_is_ascii (s : jsstring) :
  is_ascii s -> is_ascii (norm_ascii s).
Proof.
  intros H. unfold norm_ascii, collapse_ws, is_ascii.
  apply collapse_Forall; [reflexivity|]. apply trim_Forall.
  apply Forall_map. eapply Forall_impl; [|exact H].
  intros c Hc. now apply ascii_lower_ascii.
Qed.

Lemma norm_ascii_lowered (s : jsstring) :
  List.map ascii_lower (norm_ascii s) = norm_ascii s.
Proof.
  assert (H : Forall (fun c => ascii_lower c = c) (norm_ascii s)).
  { unfold norm_ascii, collapse_ws.
    apply collapse_Forall; [reflexivity|]. apply trim_Forall.
    apply Forall_map. apply Forall_forall. intros c _.
    apply ascii_lower_twice. }
  induction H as [|c l Hc _ IH]; cbn; congruence.
Qed.

(** Strings that begin, and end, with a character that is no white
    space. *)
Definition starts_clean (s : jsstring) : Prop :=
  match s with
  | c :: _ => is_ws c = false
  | [] => True
  end.

Definition ends_clean (s : jsstring) : Prop := starts_clean (rev s).

Lemma trimStart_clean (s : jsstring) : starts_clean s -> trimStart s = s.
Proof. destruct s as [|c r]; cbn; [reflexivity|]. now intros ->. Qed.

Lemma trimStart_starts_clean (s : jsstring) : starts_clean (trimStart s).
Proof.
  induction s as [|c r IH]; cbn; [exact I|].
  destruct (is_ws c) eqn:Hc; [exact IH | exact Hc].
Qed.

Lemma trim_clean (s : jsstring) :
  starts_clean s -> ends_clean s -> trim s = s.
Proof.
  intros H1 H2. unfold trim, trimEnd.
  rewrite (trimStart_clean s H1), (trimStart_clean (rev s) H2).
  apply rev_involutive.
Qed.

Lemma trim_starts_clean (s : jsstring) : starts_clean (trim s).
Proof.
  unfold trim. pose proof (trimStart_starts_clean s) as H.
  destruct (trimStart s) as [|c r]; [exact I|].
  cbn in H. rewrite trimEnd_cons by exact H. exact H.
Qed.

Lemma trim_ends_clean (s : jsstring) : ends_clean (trim s).
Proof.
  unfold ends_clean, trim, trimEnd. rewrite rev_involutive.
  apply trimStart_starts_clean.
Qed.

Lemma collapse_snoc (r : jsstring) (c : N) :
  is_ws c = false ->
  forall b, collapse_from b (r ++ [c]) = collapse_from b r ++ [c].
Proof.
  intros Hc. induction r as [|x r IH]; intros b; cbn.
  - now rewrite Hc.
  - destruct (is_ws x); [destruct b|]; now rewrite IH.
Qed.

Lemma collapse_starts_clean (s : jsstring) :
  starts_clean s -> starts_clean (collapse_ws s).
Proof.
  destruct s as [|c r]; cbn; [auto|]. intros Hc. now rewrite Hc.
Qed.

Lemma collapse_ends_clean (s : jsstring) :
  ends_clean s -> ends_clean (collapse_ws s).
Proof.
  unfold ends_clean. intros H.
  rewrite <- (rev_involutive s).
  destruct (rev s) as [|c w]; [exact I|]. cbn in H. cbn [rev].
  unfold collapse_ws. rewrite collapse_snoc by exact H.
  rewrite rev_app_distr. exact H.
Qed.

Lemma collapse_twice (s : jsstring) :
  collapse_from true (collapse_from true s) = collapse_from true s
  /\ collapse_from false (collapse_from false s) = collapse_from false s.
Proof.
  induction s as [|c r [IHt IHf]]; cbn; [now split|].
  destruct (is_ws c) eqn:Hc; cbn.
  - split; [exact IHt|]. now rewrite IHt.
  - rewrite Hc, IHf. now split.
Qed.

Lemma norm_ascii_twice (s : jsstring) : norm_ascii (norm_ascii s) = norm_ascii s.
Proof.
  unfold norm_ascii at 1. rewrite norm_ascii_lowered.
  unfold norm_ascii. rewrite trim_clean.
  - apply collapse_twice.
  - apply collapse_starts_clean, trim_starts_clean.
  - apply collapse_ends_clean, trim_ends_clean.
Qed.

(** What [norm] returns is left alone by trimming and collapsing. *)
Lemma norm_trimmed_collapsed (U : UCD) (s : prop) :
  collapse_ws (trim (norm U s)) = norm U s.
Proof.
  unfold norm. destruct s as [t|]; [|reflexivity].
  destruct (truthy t); [|reflexivity].
  rewrite trim_clean.
  - apply collapse_twice.
  - apply collapse_starts_clean, trim_starts_clean.
  - apply collapse_ends_clean, trim_ends_clean.
Qed.

Lemma norm_fixed_point (U : UCD) (x : jsstring) :
  normalize_NFKC U x = x -> toLowerCase U x = x ->
  collapse_ws (trim x) = x ->
  norm U (Some x) = x.
Proof.
  intros Hn Hl Hc. unfold norm. destruct (truthy x) eqn:Hx.
  - now rewrite Hn, Hl.
  - destruct x; [reflexivity|discriminate].
Qed.

(** C9, as the script has it.  [norm] is idempotent at every string whose
    normalised form is itself unchanged by NFKC normalisation and by
    lower-casing; this is the case of every Basic Latin string, whatever
    the Unicode tables of the host. *)
Theorem norm_idempotent_when_stable (U : UCD) (s : jsstring) :
  is_ascii s
  \/ (normalize_NFKC U (norm U (Some s)) = norm U (Some s)
      /\ toLowerCase U (norm U (Some s)) = norm U (Some s)) ->
  norm U (Some (norm U (Some s))) = norm U (Some s).
Proof.
  intros [Ha|[Hn Hl]].
  - apply norm_fixed_point.
    + rewrite (norm_on_ascii U Ha).
      apply normalize_NFKC_ascii, norm_ascii_is_ascii, Ha.
    + rewrite (norm_on_ascii U Ha). unfold toLowerCase.
      rewrite to_lower_ascii by apply norm_ascii_is_ascii, Ha.
      apply norm_ascii_lowered.
    + apply norm_trimmed_collapsed.
  - apply norm_fixed_point; auto. apply norm_trimmed_collapsed.
Qed.

(** C9, for every string, fails.  No capital J with caron is encoded, so
    [J] followed by U+030C is in normal form; lower-casing gives [j]
    followed by U+030C, which is not: a second [norm] composes the pair
    into U+01F0. *)
Definition J_caron : jsstring := [0x4A; 0x30C].

Lemma norm_not_idempotent :
  norm ucd_excerpt (Some J_caron) = [0x6A; 0x30C]
  /\ norm ucd_excerpt (Some (norm ucd_excerpt (Some J_caron))) = [0x1F0]
  /\ norm ucd_excerpt (Some (norm ucd_excerpt (Some J_caron)))
     <> norm ucd_excerpt (Some J_caron).
Proof. repeat split. discriminate. Qed.

(** A title query of Basic Latin white space normalises to the empty
    string. *)
Lemma upper_is_no_ws (c : N) :
  (0x41 <=? c) && (c <=? 0x5A) = true -> is_ws c = false.
Proof.
  intros H. apply andb_true_iff in H. destruct H as [H1 H2].
  apply N.leb_le in H1, H2. unfold is_ws.
  repeat match goal with
         | |- context [?a =? ?b] => destruct (N.eqb_spec a b); [lia|]
         end.
  destruct (N.leb_spec c 0x0D); [lia|].
  destruct (N.leb_spec 0x2000 c); [lia|].
  now rewrite !andb_false_r.
Qed.

Lemma trimStart_blank (s : jsstring) :
  forallb is_ws s = true -> trimStart s = [].
Proof.
  induction s as [|c r IH]; cbn; [reflexivity|].
  intros H. apply andb_true_iff in H. destruct H as [Hc Hr].
  rewrite Hc. now apply IH.
Qed.

Lemma norm_blank (U : UCD) (q : jsstring) :
  is_ascii q -> forallb is_ws q = true -> norm U (Some q) = [].
Proof.
  intros Ha Hw. rewrite (norm_on_ascii U Ha). unfold norm_ascii.
  assert (Hm : List.map ascii_lower q = q).
  { clear Ha. induction q as [|c r IH]; cbn; [reflexivity|].
    cbn in Hw. apply andb_true_iff in Hw. destruct Hw as [Hc Hr].
    rewrite (IH Hr). f_equal. unfold ascii_lower.
    destruct ((0x41 <=? c) && (c <=? 0x5A)) eqn:Hu; [|reflexivity].
    apply upper_is_no_ws in Hu. congruence. }
  rewrite Hm. unfold trim. rewrite (trimStart_blank q Hw). reflexivity.
Qed.

(** ** The matcher at work *)

Definition linked_record : DownloadRecord :=
  {| filename := Some (lit "b.zip");
     title := Some (lit "Autre  Truc");
     category := Some (lit "algorithme"); description := None;
     code_py := Some (lit "print(1)"); code_yaml := None;
     code_path := None; yaml_path := None;
     liens := Some (lit "https://example.org/truc.html") |}.

Definition catalogue : list DownloadRecord := [sample_record; linked_record].

Definition by_title (q : jsstring) : Params :=
  {| p_title := Some q; p_file := None |}.

Lemma title_match_first_of_earliest_tier_witness :
  title_query (by_title (lit "Autre  Truc")) (lit "Autre  Truc")
  /\ (exists r0,
        title r0 = Some (lit "Autre  Truc")
        /\ findEntry ucd_excerpt catalogue (by_title (lit "Autre  Truc"))
           = Normal (Some r0))
  /\ findEntry ucd_excerpt catalogue (by_title (lit "autre truc"))
     = Normal (Some linked_record).
Proof.
  assert (H1 : title_query (by_title (lit "Autre  Truc")) (lit "Autre  Truc"))
    by (split; reflexivity).
  assert (H2 : title_query (by_title (lit "autre truc")) (lit "autre truc"))
    by (split; reflexivity).
  split; [exact H1|]. split.
  - destruct (@title_match_first_of_earliest_tier ucd_excerpt catalogue
                _ _ H1) as [HA _].
    destruct (HA linked_record) as (r0 & pre & post & _ & Ht & _ & Hf).
    + right. left. reflexivity.
    + reflexivity.
    + exists r0. split; assumption.
  - destruct (@title_match_first_of_earliest_tier ucd_excerpt catalogue
                _ _ H2) as [_ HB].
    apply (HB 2%nat (tier_normalized ucd_excerpt (lit "autre truc"))).
    + reflexivity.
    + intros j earlier d Hj Hnth Hin.
      destruct j as [|[|j]];
        [| |inversion Hj as [|? Hj1]; inversion Hj1 as [|? Hj2];
            inversion Hj2];
        injection Hnth as <-;
        (destruct Hin as [<-|[<-|[]]]; reflexivity).
    + exists [sample_record], []. repeat split.
      intros d [<-|[]]. reflexivity.
Defined.

Lemma blank_title_query_first_record_witness :
  norm ucd_excerpt (Some (lit " ")) = []
  /\ findEntry ucd_excerpt catalogue (by_title (lit " "))
     = Normal (Some sample_record).
Proof.
  split; [reflexivity|].
  apply (@blank_title_query_first_record ucd_excerpt sample_record
           [linked_record] (by_title (lit " ")) (lit " ")).
  - split; reflexivity.
  - reflexivity.
  - intros d [<-|[<-|[]]]; repeat split; reflexivity.
Defined.

Lemma linked_entry_redirects_witness :
  viewer ucd_excerpt catalogue (by_title (lit "autre truc"))
  = [Navigate (lit "https://example.org/truc.html")].
Proof.
  apply (@linked_entry_redirects ucd_excerpt catalogue
           (by_title (lit "autre truc")) linked_record
           (lit "https://example.org/truc.html")).
  - reflexivity.
  - reflexivity.
  - reflexivity.
Defined.

(** Without [liens] the same query fills the panes. *)
Example unlinked_entry_is_shown :
  exists rest,
    viewer ucd_excerpt catalogue (by_title (lit "mon bundle"))
    = SetText CodeTitle (lit "Code Python — Mon Bundle") :: rest.
Proof. eexists. reflexivity. Qed.

Lemma norm_idempotent_when_stable_witness :
  norm ucd_excerpt (Some (lit "  Mon   Bundle ")) = lit "mon bundle"
  /\ norm ucd_excerpt (Some (norm ucd_excerpt (Some (lit "  Mon   Bundle "))))
     = norm ucd_excerpt (Some (lit "  Mon   Bundle "))
  /\ norm ucd_excerpt (Some (norm ucd_excerpt (Some (lit " Été  indien"))))
     = norm ucd_excerpt (Some (lit " Été  indien")).
Proof.
  split; [reflexivity|]. split.
  - apply (@norm_idempotent_when_stable ucd_excerpt (lit "  Mon   Bundle ")).
    left. vm_compute. repeat constructor.
  - apply (@norm_idempotent_when_stable ucd_excerpt (lit " Été  indien")).
    right. split; reflexivity.
Defined.

End ViewerFacts.

(* ================================================================= *)
(** * More on the matcher *)

Module MatcherMore.
Import JS Data Viewer HostFacts ViewerFacts.

Local Open Scope N_scope.

(** ** What [findEntry] returns is an entry of the catalogue *)

Lemma findM_some_in {A} (f : A -> completion bool) (l : list A) (r : A) :
  findM f l = Normal (Some r) -> In r l.
Proof.
  induction l as [|x l IH]; cbn; [discriminate|].
  destruct (f x) as [b|e]; cbn; [|discriminate].
  destruct b.
  - intros [= <-]. now left.
  - intros H. right. now apply IH.
Qed.

Lemma title_tiers_in (U : UCD) (downloads : list DownloadRecord)
      (q : jsstring) (r : DownloadRecord) :
  title_tiers U downloads q = Some r -> In r downloads.
Proof.
  rewrite title_tiers_cascade.
  repeat match goal with
         | |- context [find ?f downloads] =>
             let H := fresh "H" in
             destruct (find f downloads) eqn:H;
             [apply find_some in H; destruct H as [H _]|]
         end; intros [= <-]; assumption.
Qed.

Lemma file_tiers_in (U : UCD) (downloads : list DownloadRecord)
      (f : jsstring) (r : DownloadRecord) :
  file_tiers U downloads f = Normal (Some r) -> In r downloads.
Proof.
  unfold file_tiers.
  match goal with
  | |- context [findM ?g downloads] =>
      destruct (findM g downloads) as [[first|]|e] eqn:Hm
  end; cbn.
  - intros [= <-]. now apply findM_some_in in Hm.
  - repeat match goal with
           | |- context [find ?f downloads] =>
               let H := fresh "H" in
               destruct (find f downloads) eqn:H;
               [apply find_some in H; destruct H as [H _]|]
           end; intros [= <-]; assumption.
  - discriminate.
Qed.

Lemma findEntry_member_aux (U : UCD) (downloads : list DownloadRecord)
      (p : Params) (r : DownloadRecord) :
  findEntry U downloads p = Normal (Some r) -> In r downloads.
Proof.
  unfold findEntry. destruct downloads as [|d0 rest]; [discriminate|].
  destruct (given (p_title p)).
  - destruct (title_tiers U (d0 :: rest) (or_else (p_title p) [])) eqn:Ht.
    + intros [= <-]. now apply title_tiers_in in Ht.
    + destruct (given (p_file p)); [|discriminate].
      apply file_tiers_in.
  - destruct (given (p_file p)); [|discriminate].
    apply file_tiers_in.
Qed.

(** The matcher never makes up an entry: what it returns is in the list,
    and the list is not empty. *)
Theorem findEntry_returns_member (U : UCD) (downloads : list DownloadRecord)
        (p : Params) (r : DownloadRecord) :
  findEntry U downloads p = Normal (Some r) ->
  In r downloads /\ downloads <> [].
Proof.
  intros H. apply findEntry_member_aux in H. split; [exact H|].
  intros ->. destruct H.
Qed.

(** ** When the file blocks throw *)

Definition percent_free (s : jsstring) : Prop := ~ In 0x25 s.

Lemma scan_percent_free (s : jsstring) :
  percent_free s -> scan_escapes s = Some (List.map Lit s).
Proof.
  unfold percent_free. induction s as [|c r IH]; intros H; [reflexivity|].
  cbn. destruct (N.eqb_spec c 0x25) as [->|Hc].
  - exfalso. apply H. now left.
  - rewrite IH; [reflexivity|]. intros Hin. apply H. now right.
Qed.

Lemma assemble_literals (s : jsstring) : assemble (List.map Lit s) = Some s.
Proof. induction s as [|c r IH]; cbn; [reflexivity|]. now rewrite IH. Qed.

Lemma decode_percent_free (s : jsstring) :
  percent_free s -> decodeURIComponent s = Normal s.
Proof.
  intros H. unfold decodeURIComponent.
  now rewrite (scan_percent_free H), assemble_literals.
Qed.

(** A file parameter without a percent sign decodes to itself, and
    [findEntry] returns, whatever the title parameter and the catalogue. *)
Theorem percent_free_file_returns (U : UCD)
        (downloads : list DownloadRecord) (p : Params) :
  (forall f, p_file p = Some f -> percent_free f) ->
  exists r, findEntry U downloads p = Normal r.
Proof.
  intros Hf. unfold findEntry. destruct downloads as [|d0 rest]; [eauto|].
  destruct (if given (p_title p) then _ else _); [eauto|].
  destruct (p_file p) as [f|] eqn:Hp; cbn [given]; [|eauto].
  destruct (truthy f) eqn:Ht; [|eauto].
  cbn [or_else]. rewrite Ht.
  apply (@file_tiers_returns U (d0 :: rest) f f).
  apply decode_percent_free. now apply Hf.
Qed.

(** For a file parameter that does not decode, and no title, the outcome is
    decided by the first entry alone: it is returned when its file name is
    the raw parameter, and otherwise the error escapes, even if a later
    entry has that file name. *)
Theorem undecodable_file_first_entry_decides (U : UCD) (d : DownloadRecord)
        (rest : list DownloadRecord) (f : jsstring) (e : error) :
  truthy f = true ->
  decodeURIComponent f = Throw e ->
  findEntry U (d :: rest) {| p_title := None; p_file := Some f |} =
  if str_eqb (or_else (filename d) []) f then Normal (Some d) else Throw e.
Proof.
  intros Hf Hd. unfold findEntry. cbn [p_title p_file given or_else].
  rewrite Hf. unfold file_tiers. cbn [findM].
  destruct (str_eqb (or_else (filename d) []) f); cbn.
  - reflexivity.
  - now rewrite Hd.
Qed.

(** ** The tiers of a file query *)

Definition file_tier_equal (f dec : jsstring) (d : DownloadRecord) : bool :=
  str_eqb (or_else (filename d) []) f || str_eqb (or_else (filename d) []) dec.

Definition file_tier_normalized (U : UCD) (f : jsstring) (d : DownloadRecord)
  : bool :=
  str_eqb (norm U (filename d)) (norm U (Some f))
  || includes (norm U (filename d)) (norm U (Some f)).

Definition file_tier_paths (U : UCD) (f : jsstring) (d : DownloadRecord)
  : bool :=
  (given (code_path d) && includes (norm U (code_path d)) (norm U (Some f)))
  || (given (yaml_path d) && includes (norm U (yaml_path d)) (norm U (Some f))).

Definition file_tier_list (U : UCD) (f dec : jsstring)
  : list (DownloadRecord -> bool) :=
  [file_tier_equal f dec; file_tier_normalized U f; file_tier_paths U f].

Lemma findM_pure {A} (g : A -> bool) (l : list A) :
  findM (fun x => Normal (g x)) l = Normal (find g l).
Proof.
  induction l as [|x l IH]; cbn; [reflexivity|].
  destruct (g x); [reflexivity|exact IH].
Qed.

Lemma findM_pointwise {A} (f g : A -> completion bool) (l : list A) :
  (forall x, f x = g x) -> findM f l = findM g l.
Proof.
  intros H. induction l as [|x l IH]; cbn; [reflexivity|].
  now rewrite H, IH.
Qed.

Lemma file_tiers_cascade (U : UCD) (downloads : list DownloadRecord)
      (f dec : jsstring) :
  decodeURIComponent f = Normal dec ->
  file_tiers U downloads f =
  Normal
    match find (file_tier_equal f dec) downloads with
    | Some entry => Some entry
    | None =>
        match find (file_tier_normalized U f) downloads with
        | Some entry => Some entry
        | None => find (file_tier_paths U f) downloads
        end
    end.
Proof.
  intros Hd. unfold file_tiers.
  rewrite (findM_pointwise _ (fun d => Normal (file_tier_equal f dec d))).
  - rewrite findM_pure. cbn [bind].
    destruct (find (file_tier_equal f dec) downloads); [reflexivity|].
    fold (file_tier_normalized U f).
    destruct (find (file_tier_normalized U f) downloads); reflexivity.
  - intros d. unfold file_tier_equal. rewrite Hd. cbn [bind].
    destruct (str_eqb (or_else (filename d) []) f); reflexivity.
Qed.

(** The parameter [file] is the query when it is truthy and the title block
    returned nothing (no title, or a title no tier matches). *)
Definition file_query (U : UCD) (downloads : list DownloadRecord)
           (p : Params) (f : jsstring) : Prop :=
  p_file p = Some f /\ truthy f = true
  /\ (given (p_title p) = true ->
      title_tiers U downloads (or_else (p_title p) []) = None).

(** For a file query that decodes, [findEntry] returns the first entry, in
    list order, of the earliest of the three file tiers that some entry
    satisfies: raw or decoded equality of the file name, then normalised
    equality or containment, then containment in the code or YAML path; and
    it returns nothing when no entry satisfies any of them. *)
Theorem file_match_first_of_earliest_tier (U : UCD)
        (downloads : list DownloadRecord) (p : Params) (f dec : jsstring) :
  file_query U downloads p f ->
  decodeURIComponent f = Normal dec ->
  (forall k tier r,
     nth_error (file_tier_list U f dec) k = Some tier ->
     (forall j earlier d,
        (j < k)%nat -> nth_error (file_tier_list U f dec) j = Some earlier ->
        In d downloads -> earlier d = false) ->
     first_satisfying tier downloads r ->
     findEntry U downloads p = Normal (Some r))
  /\ ((forall tier d,
         In tier (file_tier_list U f dec) -> In d downloads ->
         tier d = false) ->
      findEntry U downloads p = Normal None).
Proof.
  intros (Hp & Hf & Ht) Hd.
  assert (Hfind : downloads <> [] ->
            findEntry U downloads p = file_tiers U downloads f).
  { intros Hne. unfold findEntry.
    destruct downloads as [|d0 rest]; [congruence|].
    rewrite Hp. cbn [given or_else]. rewrite Hf.
    destruct (given (p_title p)); [now rewrite Ht|reflexivity]. }
  split.
  - intros k tier r Hk Hearlier Hfirst.
    rewrite Hfind.
    2:{ destruct Hfirst as (pre & post & -> & _). now destruct pre. }
    rewrite (@file_tiers_cascade U downloads f dec Hd).
    apply find_first in Hfirst.
    assert (Hnone : forall j earlier,
               (j < k)%nat ->
               nth_error (file_tier_list U f dec) j = Some earlier ->
               find earlier downloads = None).
    { intros j earlier Hj Hnth. apply find_none_all.
      intros d Hin. exact (Hearlier j earlier d Hj Hnth Hin). }
    destruct k as [|[|[|k]]]; cbn in Hk.
    + injection Hk as <-. now rewrite Hfirst.
    + injection Hk as <-.
      rewrite (Hnone 0%nat (file_tier_equal f dec)) by (auto; lia).
      now rewrite Hfirst.
    + injection Hk as <-.
      rewrite (Hnone 0%nat (file_tier_equal f dec)) by (auto; lia).
      rewrite (Hnone 1%nat (file_tier_normalized U f)) by (auto; lia).
      now rewrite Hfirst.
    + destruct k; discriminate.
  - intros Hnone. destruct downloads as [|d0 rest]; [reflexivity|].
    rewrite Hfind by discriminate.
    rewrite (@file_tiers_cascade U (d0 :: rest) f dec Hd).
    rewrite !find_none_all; [reflexivity| | |];
      intros d Hin; apply Hnone; cbn; auto.
Qed.

End MatcherMore.

(* ================================================================= *)
(** * More on the normalisation and on the page of the viewer *)

Module ViewerMore.
Import JS Data Viewer HostFacts ViewerFacts.

Local Open Scope N_scope.

(** ** The shape of a normalised string *)

Lemma collapse_only_spaces (s : jsstring) (b : bool) :
  Forall (fun c => is_ws c = true -> c = 0x20) (collapse_from b s).
Proof.
  revert b. induction s as [|c r IH]; intros b; cbn; [constructor|].
  destruct (is_ws c) eqn:Hc.
  - destruct b; [apply IH|]. constructor; [reflexivity|apply IH].
  - constructor; [congruence|apply IH].
Qed.

(** Whatever the string and the Unicode tables, [norm] returns a string
    that trimming and collapsing leave alone, and in which the only white
    space is the single space U+0020: no white space at either end, no run
    of two, no tab or line break. *)
Theorem norm_is_trimmed_and_collapsed (U : UCD) (s : prop) :
  trim (norm U s) = norm U s
  /\ collapse_ws (norm U s) = norm U s
  /\ Forall (fun c => is_ws c = true -> c = 0x20) (norm U s).
Proof.
  unfold norm. destruct s as [t|]; [|repeat split; constructor].
  destruct (truthy t); [|repeat split; constructor].
  repeat split.
  - apply trim_clean.
    + apply collapse_starts_clean, trim_starts_clean.
    + apply collapse_ends_clean, trim_ends_clean.
  - apply collapse_twice.
  - apply collapse_only_spaces.
Qed.

(** ** Letter case and surrounding blanks *)

Definition blank (s : jsstring) : Prop := forallb is_ws s = true.

Lemma trimStart_blank_app (b y : jsstring) :
  blank b -> trimStart (b ++ y) = trimStart y.
Proof.
  unfold blank. induction b as [|c r IH]; cbn; [reflexivity|].
  intros H. apply andb_true_iff in H. destruct H as [Hc Hr].
  rewrite Hc. now apply IH.
Qed.

Lemma trimStart_app_kept (y z : jsstring) :
  trimStart y <> [] -> trimStart (y ++ z) = trimStart y ++ z.
Proof.
  induction y as [|c r IH]; cbn; [congruence|].
  destruct (is_ws c); [exact IH|reflexivity].
Qed.

Lemma trimStart_nil_blank (y : jsstring) : trimStart y = [] -> blank y.
Proof.
  unfold blank. induction y as [|c r IH]; cbn; [reflexivity|].
  destruct (is_ws c); [exact IH|discriminate].
Qed.

Lemma blank_app (a b : jsstring) : blank a -> blank b -> blank (a ++ b).
Proof. unfold blank. intros Ha Hb. now rewrite forallb_app, Ha, Hb. Qed.

Lemma blank_rev (a : jsstring) : blank a -> blank (rev a).
Proof.
  unfold blank. rewrite !forallb_forall. intros H x Hx.
  apply H. now apply in_rev.
Qed.

Lemma trimEnd_app_blank (z b : jsstring) :
  blank b -> trimEnd (z ++ b) = trimEnd z.
Proof.
  intros Hb. unfold trimEnd. rewrite rev_app_distr.
  now rewrite trimStart_blank_app by now apply blank_rev.
Qed.

Lemma trim_padding (b1 y b2 : jsstring) :
  blank b1 -> blank b2 -> trim (b1 ++ y ++ b2) = trim y.
Proof.
  intros H1 H2. unfold trim. rewrite trimStart_blank_app by exact H1.
  destruct (trimStart y) as [|c r] eqn:Hy.
  - apply trimStart_nil_blank in Hy.
    now rewrite (trimStart_blank (y ++ b2) (blank_app Hy H2)).
  - rewrite trimStart_app_kept by congruence.
    rewrite Hy. now apply trimEnd_app_blank.
Qed.

Lemma letter_is_no_ws (c : N) : 0x41 <= c -> c <= 0x7A -> is_ws c = false.
Proof.
  intros H1 H2. unfold is_ws.
  repeat match goal with
         | |- context [?a =? ?b] => destruct (N.eqb_spec a b); [lia|]
         end.
  destruct (N.leb_spec c 0x0D); [lia|].
  destruct (N.leb_spec 0x2000 c); [lia|].
  now rewrite !andb_false_r.
Qed.

Lemma is_ws_ascii_lower (c : N) : is_ws (ascii_lower c) = is_ws c.
Proof.
  unfold ascii_lower. destruct ((0x41 <=? c) && (c <=? 0x5A)) eqn:H.
  - apply andb_true_iff in H. destruct H as [H1 H2].
    apply N.leb_le in H1, H2.
    rewrite !letter_is_no_ws by lia. reflexivity.
  - reflexivity.
Qed.

Lemma blank_lower (b : jsstring) : blank b -> blank (List.map ascii_lower b).
Proof.
  unfold blank. induction b as [|c r IH]; cbn; [reflexivity|].
  intros H. apply andb_true_iff in H. destruct H as [Hc Hr].
  now rewrite is_ws_ascii_lower, Hc, IH.
Qed.

(** Two Basic Latin strings that differ only by the case of their letters. *)
Definition same_letters (a b : jsstring) : Prop :=
  List.map ascii_lower a = List.map ascii_lower b.

Lemma norm_case_padding_aux (U : UCD) (t q b1 b2 : jsstring) :
  is_ascii t -> is_ascii (b1 ++ q ++ b2) ->
  blank b1 -> blank b2 -> same_letters q t ->
  norm U (Some (b1 ++ q ++ b2)) = norm U (Some t).
Proof.
  intros Ht Hq H1 H2 Hs.
  rewrite (@norm_on_ascii U t Ht).
  transitivity (norm_ascii (b1 ++ q ++ b2));
    [exact (@norm_on_ascii U _ Hq)|].
  unfold norm_ascii. rewrite !map_app.
  rewrite trim_padding by now apply blank_lower.
  now rewrite Hs.
Qed.

(** On Basic Latin strings [norm] ignores the case of the letters and the
    white space around the string. *)
Theorem norm_ignores_case_and_padding (U : UCD) (t q b1 b2 : jsstring) :
  is_ascii t -> is_ascii (b1 ++ q ++ b2) ->
  blank b1 -> blank b2 -> same_letters q t ->
  norm U (Some (b1 ++ q ++ b2)) = norm U (Some t).
Proof. apply norm_case_padding_aux. Qed.

Lemma find_some_exists {A} (f : A -> bool) (l : list A) (d : A) :
  In d l -> f d = true -> exists r, find f l = Some r.
Proof.
  intros Hin Hf. destruct (find f l) eqn:H; [eauto|].
  apply find_none with (x := d) in H; [congruence|exact Hin].
Qed.

(** So a title is found whatever the case it is typed in and the blanks
    around it: when an entry has the Basic Latin title [t], a title query
    that is [t] in another case, with blanks around, returns an entry. *)
Theorem title_found_in_any_case (U : UCD) (downloads : list DownloadRecord)
        (d : DownloadRecord) (p : Params) (t q b1 b2 : jsstring) :
  In d downloads -> title d = Some t ->
  is_ascii t -> is_ascii (b1 ++ q ++ b2) ->
  blank b1 -> blank b2 -> same_letters q t ->
  title_query p (b1 ++ q ++ b2) ->
  exists r, In r downloads /\ findEntry U downloads p = Normal (Some r).
Proof.
  intros Hin Htitle Ht Hq H1 H2 Hs Hp.
  assert (Hn : tier_normalized U (b1 ++ q ++ b2) d = true).
  { unfold tier_normalized. rewrite Htitle.
    apply str_eqb_eq. symmetry.
    now apply norm_case_padding_aux. }
  destruct (find_some_exists (tier_normalized U (b1 ++ q ++ b2))
              downloads d Hin Hn) as [r3 H3].
  assert (Hex : exists r,
            title_tiers U downloads (b1 ++ q ++ b2) = Some r).
  { rewrite title_tiers_cascade.
    destruct (find (tier_exact _) downloads); [eauto|].
    destruct (find (tier_decoded _) downloads); [eauto|].
    rewrite H3. eauto. }
  destruct Hex as [r Hr]. exists r. split.
  - exact (@MatcherMore.title_tiers_in U downloads _ r Hr).
  - now apply (@findEntry_title_query U downloads p (b1 ++ q ++ b2) r).
Qed.

(** ** What the viewer does, and never does *)

Lemma populate_no_navigate (entry : DownloadRecord) (u : jsstring) :
  ~ In (Navigate u) (populate entry).
Proof.
  unfold populate, fill_pane. intros H.
  repeat (apply in_app_or in H; destruct H as [H|H]);
    repeat match type of H with
           | In _ (if ?b then _ else _) => destruct b
           end;
    cbn in H; intuition discriminate.
Qed.

Lemma no_match_quiet (downloads : list DownloadRecord) (ef : effect) :
  In ef (no_match downloads) ->
  (forall u, ef <> Navigate u) /\ (forall el s, ef <> SetText el s \/ el = Info).
Proof.
  unfold no_match, showError. cbn. intros H.
  split.
  - intros u. intuition (subst; discriminate).
  - intros el s.
    destruct H as [H|[H|[H|[H|[H|[]]]]]]; subst;
      try (left; discriminate).
    + destruct el; try (left; discriminate); now right.
    + destruct el; try (left; discriminate); now right.
Qed.

(** The viewer navigates only to the [liens] of an entry of the catalogue
    that the query matched, and then does nothing else; and it writes to the
    code box only for a matched entry of the catalogue without [liens]. *)
Theorem viewer_navigates_or_shows (U : UCD)
        (downloads : list DownloadRecord) (p : Params) :
  (forall u, In (Navigate u) (viewer U downloads p) ->
     exists entry,
       In entry downloads
       /\ findEntry U downloads p = Normal (Some entry)
       /\ liens entry = Some u
       /\ viewer U downloads p = [Navigate u])
  /\ (forall s, In (SetText CodeBox s) (viewer U downloads p) ->
        exists entry,
          In entry downloads
          /\ findEntry U downloads p = Normal (Some entry)
          /\ has_link entry = false
          /\ viewer U downloads p = populate entry).
Proof.
  unfold viewer.
  destruct (negb (given (p_title p)) && negb (given (p_file p))).
  { split; intros x [H|[]]; discriminate. }
  destruct (findEntry U downloads p) as [[entry|]|e] eqn:Hf.
  - pose proof (@MatcherMore.findEntry_member_aux U downloads p entry Hf)
      as Hin.
    destruct (has_link entry) eqn:Hl.
    + split.
      * intros u [H|[]]. injection H as H. exists entry.
        repeat split; auto.
        -- unfold has_link in Hl. unfold or_else in *.
           destruct (liens entry) as [l|]; [|discriminate].
           destruct (truthy l) eqn:Hl'; [congruence|].
           destruct l; discriminate.
        -- now rewrite H.
      * intros s [H|[]]. discriminate.
    + split.
      * intros u H. now apply populate_no_navigate in H.
      * intros s _. exists entry. auto.
  - split.
    + intros u H. apply no_match_quiet in H. destruct H as [H _].
      now destruct (H u).
    + intros s H. apply no_match_quiet in H. destruct H as [_ H].
      destruct (H CodeBox s); [congruence|discriminate].
  - split; intros x [H|[]]; discriminate.
Qed.

End ViewerMore.

(* ================================================================= *)
(** * Escaping: [escapeHtml] and [encodeURI] *)

Module EscapeFacts.
Import JS Data Viewer HostFacts.

Local Open Scope N_scope.

(** The replacement of one character by [escapeHtml]. *)
Definition escape_char (c : N) : jsstring :=
  if c =? 0x26 then lit "&amp;"
  else if c =? 0x3C then lit "&lt;"
  else if c =? 0x3E then lit "&gt;"
  else if c =? 0x22 then lit "&quot;"
  else if c =? 0x27 then lit "&#39;"
  else [c].

Lemma escapeHtml_chars (s : jsstring) : escapeHtml s = flat_map escape_char s.
Proof. reflexivity. Qed.

Definition markup (c : N) : Prop :=
  c = 0x3C \/ c = 0x3E \/ c = 0x22 \/ c = 0x27.

Lemma escape_char_safe (x c : N) : In c (escape_char x) -> ~ markup c.
Proof.
  unfold escape_char, markup.
  repeat match goal with
         | |- context [x =? ?k] => destruct (N.eqb_spec x k)
         end; cbn; intros H; intuition (subst; try discriminate; congruence).
Qed.

(** The text [escapeHtml] returns holds none of the characters [<], [>],
    double quote and single quote, whatever the input; and a text that holds
    none of these and no ampersand is returned as it is. *)
Theorem escapeHtml_leaves_no_markup (s : jsstring) :
  (forall c, In c (escapeHtml s) -> ~ markup c)
  /\ ((forall c, In c s -> ~ markup c /\ c <> 0x26) -> escapeHtml s = s).
Proof.
  split.
  - intros c H. rewrite escapeHtml_chars in H. apply in_flat_map in H.
    destruct H as (x & _ & Hx). now apply escape_char_safe in Hx.
  - rewrite escapeHtml_chars. induction s as [|x r IH]; intros H;
      [reflexivity|].
    cbn [flat_map]. rewrite IH by (intros c Hc; apply H; now right).
    destruct (H x (or_introl eq_refl)) as [Hm Ha]. unfold markup in Hm.
    unfold escape_char.
    repeat match goal with
           | |- context [x =? ?k] =>
               destruct (N.eqb_spec x k); [exfalso; tauto|]
           end.
    reflexivity.
Qed.

Lemma escape_char_cases (x : N) :
  (x = 0x26 /\ escape_char x = [38; 97; 109; 112; 59])
  \/ (x = 0x3C /\ escape_char x = [38; 108; 116; 59])
  \/ (x = 0x3E /\ escape_char x = [38; 103; 116; 59])
  \/ (x = 0x22 /\ escape_char x = [38; 113; 117; 111; 116; 59])
  \/ (x = 0x27 /\ escape_char x = [38; 35; 51; 57; 59])
  \/ (x <> 0x26 /\ escape_char x = [x]).
Proof.
  unfold escape_char.
  repeat match goal with
         | |- context [x =? ?k] => destruct (N.eqb_spec x k); [subst; tauto|]
         end.
  tauto.
Qed.

(** [escapeHtml] loses nothing: two texts with the same escaped form are
    the same text. *)
Theorem escapeHtml_injective (a b : jsstring) :
  escapeHtml a = escapeHtml b -> a = b.
Proof.
  change (flat_map escape_char a = flat_map escape_char b -> a = b).
  revert b. induction a as [|x a IH]; intros [|y b] H.
  - reflexivity.
  - cbn [flat_map] in H.
    destruct (escape_char_cases y)
      as [[_ E]|[[_ E]|[[_ E]|[[_ E]|[[_ E]|[_ E]]]]]];
      rewrite E in H; discriminate.
  - cbn [flat_map] in H.
    destruct (escape_char_cases x)
      as [[_ E]|[[_ E]|[[_ E]|[[_ E]|[[_ E]|[_ E]]]]]];
      rewrite E in H; discriminate.
  - cbn [flat_map] in H.
    destruct (escape_char_cases x)
      as [[Hx Ex]|[[Hx Ex]|[[Hx Ex]|[[Hx Ex]|[[Hx Ex]|[Hx Ex]]]]]];
    destruct (escape_char_cases y)
      as [[Hy Ey]|[[Hy Ey]|[[Hy Ey]|[[Hy Ey]|[[Hy Ey]|[Hy Ey]]]]]];
      rewrite Ex, Ey in H; cbn in H;
      try discriminate;
      try (injection H as H; subst; f_equal; now apply IH);
      try (injection H as Hh H; congruence).
Qed.

(** ** [encodeURI] *)

(** The code points. *)
Definition scalar (c : N) : Prop := c < 0x110000.

(** The scalar values: the code points of a well-formed string. *)
Definition usv (c : N) : Prop := c < 0xD800 \/ (0xDFFF < c /\ c < 0x110000).

Lemma usv_scalar (c : N) : usv c -> scalar c.
Proof. unfold usv, scalar. lia. Qed.

Definition uri_char (c : N) : bool := uri_kept c || (c =? 0x25).

Lemma hex_char_kept (v : N) : v < 16 -> is_alnum (hex_char v) = true.
Proof.
  intros H. unfold hex_char, is_alnum.
  destruct (N.ltb_spec v 10).
  - assert (H1 : (0x30 <=? 0x30 + v) = true) by (apply N.leb_le; lia).
    assert (H2 : (0x30 + v <=? 0x39) = true) by (apply N.leb_le; lia).
    now rewrite H1, H2.
  - assert (H1 : (0x41 <=? 0x41 + v - 10) = true) by (apply N.leb_le; lia).
    assert (H2 : (0x41 + v - 10 <=? 0x5A) = true) by (apply N.leb_le; lia).
    rewrite H1, H2. cbn. now rewrite orb_true_r.
Qed.

Lemma utf8_encode_octets (c : N) :
  scalar c -> Forall (fun b => b < 256) (utf8_encode c).
Proof.
  unfold scalar, utf8_encode. intros H.
  destruct (N.ltb_spec c 0x80); [repeat constructor; lia|].
  destruct (N.ltb_spec c 0x800).
  { repeat constructor.
    - assert (c / 64 < 32) by (apply N.Div0.div_lt_upper_bound; lia). lia.
    - pose proof (N.mod_lt c 64). lia. }
  destruct (N.ltb_spec c 0x10000).
  { repeat constructor.
    - assert (c / 4096 < 16) by (apply N.Div0.div_lt_upper_bound; lia). lia.
    - pose proof (N.mod_lt (c / 64) 64). lia.
    - pose proof (N.mod_lt c 64). lia. }
  repeat constructor.
  - assert (c / 262144 < 8) by (apply N.Div0.div_lt_upper_bound; lia). lia.
  - pose proof (N.mod_lt (c / 4096) 64). lia.
  - pose proof (N.mod_lt (c / 64) 64). lia.
  - pose proof (N.mod_lt c 64). lia.
Qed.

Lemma escape_octet_chars (b : N) :
  b < 256 -> forallb uri_char (escape_octet b) = true.
Proof.
  intros H. unfold escape_octet, uri_char, uri_kept. cbn [forallb].
  rewrite !hex_char_kept.
  - reflexivity.
  - apply N.mod_lt. lia.
  - apply N.Div0.div_lt_upper_bound. lia.
Qed.

Lemma encodeURI_chars (s : jsstring) :
  Forall scalar s -> forallb uri_char (encodeURI s) = true.
Proof.
  unfold encodeURI. induction 1 as [|c r Hc _ IH]; [reflexivity|].
  cbn [flat_map]. rewrite forallb_app, IH, andb_true_r.
  destruct (uri_kept c) eqn:Hk.
  - cbn. unfold uri_char. now rewrite Hk.
  - pose proof (utf8_encode_octets Hc) as Ho.
    induction Ho as [|b l Hb _ IHl]; [reflexivity|].
    cbn [flat_map]. rewrite forallb_app, IHl, andb_true_r.
    now apply escape_octet_chars.
Qed.

End EscapeFacts.

(* ================================================================= *)
(** * More on the converter *)

Module ConverterMore.
Import JS Num Converter HostFacts ConverterFacts.

(** ** The lines that give a row *)

(** A line gives a row when it is none of the skipped kinds. *)
Definition valid_line (line : jsstring) : bool :=
  negb (str_eqb line [])
  && negb (startsWith line (lit "#"))
  && negb (startsWith line (lit "!"))
  && (5 <=? List.length (tokens line))%nat
  && forallb parses_as_number (firstn 5 (tokens line)).

Lemma invalid_skipped (line : jsstring) :
  valid_line line = false -> skipped line.
Proof.
  unfold valid_line. intros H.
  destruct (str_eqb line []) eqn:H1.
  { apply str_eqb_eq in H1. now apply skipped_empty. }
  destruct (startsWith line (lit "#")) eqn:H2.
  { now apply skipped_hash. }
  destruct (startsWith line (lit "!")) eqn:H3.
  { now apply skipped_bang. }
  destruct (5 <=? List.length (tokens line))%nat eqn:H4.
  2:{ apply skipped_short. apply Nat.leb_gt in H4. lia. }
  destruct (forallb parses_as_number (firstn 5 (tokens line))) eqn:H5.
  2:{ now apply skipped_not_numeric. }
  discriminate.
Qed.

Lemma valid_iff_not_skipped (line : jsstring) :
  valid_line line = true <-> ~ skipped line.
Proof.
  split.
  - unfold valid_line. intros H Hs.
    apply andb_true_iff in H. destruct H as [H Hnum].
    apply andb_true_iff in H. destruct H as [H Hlen].
    apply andb_true_iff in H. destruct H as [H Hbang].
    apply andb_true_iff in H. destruct H as [Hempty Hhash].
    destruct Hs as [Hs|Hs|Hs|Hs|Hs].
    + subst. discriminate.
    + rewrite Hs in Hhash. discriminate.
    + rewrite Hs in Hbang. discriminate.
    + apply Nat.leb_le in Hlen. lia.
    + congruence.
  - intros H. destruct (valid_line line) eqn:Hv; [reflexivity|].
    destruct H. now apply invalid_skipped.
Qed.

Lemma split_ws_first (s cur : jsstring) :
  exists t rest, split_ws_from cur false s = (rev cur ++ t) :: rest.
Proof.
  revert cur. induction s as [|c r IH]; intros cur; cbn.
  - exists [], []. now rewrite app_nil_r.
  - destruct (is_ws c).
    + exists [], (split_ws_from [] true r). now rewrite app_nil_r.
    + destruct (IH (c :: cur)) as (t & rest & ->).
      exists (c :: t), rest. cbn. now rewrite <- app_assoc.
Qed.

(** A token that begins with [#] or [!] is no number. *)
Lemma mark_is_no_number (c : N) (t : jsstring) :
  c = 0x23%N \/ c = 0x21%N -> Number (c :: t) = S754_nan.
Proof.
  intros Hc. unfold Number.
  rewrite trim_cons by (destruct Hc; subst; reflexivity).
  destruct Hc; subst; reflexivity.
Qed.

Lemma valid_line_row (E : Engine) (acc : Parsed) (line : jsstring) :
  valid_line line = true ->
  parse_line E acc line =
  {| freqs := freqs acc ++ [field (tokens line) 0];
     s11 := s11 acc
            ++ [dB E (field (tokens line) 1) (field (tokens line) 2)];
     s21 := s21 acc
            ++ [dB E (field (tokens line) 3) (field (tokens line) 4)] |}.
Proof.
  unfold valid_line. intros H.
  apply andb_true_iff in H. destruct H as [H Hnum].
  apply andb_true_iff in H. destruct H as [H Hlen].
  unfold parse_line. fold (tokens line).
  assert (Hfield : forall i, (i < 5)%nat ->
                             isNaN (field (tokens line) i) = false).
  { apply Nat.leb_le in Hlen.
    destruct (tokens line) as [|t0 [|t1 [|t2 [|t3 [|t4 rest]]]]];
      cbn in Hlen; try lia.
    cbn [firstn forallb] in Hnum. unfold parses_as_number in Hnum.
    repeat (apply andb_true_iff in Hnum; destruct Hnum as [? Hnum]).
    intros i Hi. unfold field.
    destruct i as [|[|[|[|[|i]]]]]; cbn [nth_error]; try lia;
      match goal with
      | Hn : negb (isNaN ?x) = true |- isNaN ?x = false =>
          now apply negb_true_iff in Hn
      end. }
  assert (Hhead : negb (truthy (trim line))
                  || startsWith (trim line) (lit "!")
                  || startsWith (trim line) (lit "#") = false).
  { unfold tokens in *. destruct (trim line) as [|c r] eqn:Ht.
    - cbn in Hlen. discriminate.
    - cbn [truthy negb orb].
      destruct (split_ws_first (c :: r) []) as (t & rest & Hs).
      fold (split_ws (c :: r)) in Hs. cbn [rev app] in Hs.
      assert (Hws : is_ws c = false).
      { pose proof (ViewerFacts.trim_starts_clean line) as Hc.
        rewrite Ht in Hc. exact Hc. }
      unfold split_ws in Hs. cbn [split_ws_from] in Hs. rewrite Hws in Hs.
      destruct (split_ws_first r [c]) as (t' & rest' & Hs').
      cbn [rev app] in Hs'.
      pose proof (Hfield 0%nat ltac:(lia)) as H0.
      unfold field, split_ws in H0. cbn [split_ws_from] in H0.
      rewrite Hws, Hs' in H0. cbn [nth_error] in H0.
      change (lit "!") with [0x21%N]. change (lit "#") with [0x23%N].
      cbn [startsWith]. rewrite !andb_true_r.
      destruct (N.eqb_spec 0x21 c) as [<-|Hb].
      { rewrite mark_is_no_number in H0 by now right. discriminate. }
      destruct (N.eqb_spec 0x23 c) as [<-|Hh].
      { rewrite mark_is_no_number in H0 by now left. discriminate. }
      reflexivity. }
  rewrite Hhead.
  apply Nat.leb_le in Hlen.
  assert (Hlt : (List.length (tokens line) <? 5)%nat = false)
    by (apply Nat.ltb_ge; lia).
  rewrite Hlt. cbn [existsb].
  rewrite !Hfield by lia. reflexivity.
Qed.

Lemma parse_lines_rows (E : Engine) (lines : list jsstring) (acc : Parsed) :
  let ls := filter valid_line lines in
  parse_lines E lines acc =
  {| freqs := freqs acc ++ List.map (fun l => field (tokens l) 0) ls;
     s11 := s11 acc
            ++ List.map (fun l => dB E (field (tokens l) 1)
                                       (field (tokens l) 2)) ls;
     s21 := s21 acc
            ++ List.map (fun l => dB E (field (tokens l) 3)
                                       (field (tokens l) 4)) ls |}.
Proof.
  cbn zeta. revert acc. induction lines as [|l lines IH]; intros acc.
  - cbn. rewrite !app_nil_r. now destruct acc.
  - unfold parse_lines in *. cbn [fold_left filter].
    destruct (valid_line l) eqn:Hv.
    + rewrite (@valid_line_row E acc l Hv), IH.
      cbn [freqs s11 s21 List.map]. rewrite <- !app_assoc. reflexivity.
    + rewrite parse_line_skipped, IH; [reflexivity|].
      now apply invalid_skipped.
Qed.

Lemma valid_line_fields (line : jsstring) (i : nat) :
  valid_line line = true -> (i < 5)%nat ->
  isNaN (field (tokens line) i) = false.
Proof.
  unfold valid_line. intros H Hi.
  apply andb_true_iff in H. destruct H as [H Hnum].
  apply andb_true_iff in H. destruct H as [H Hlen].
  apply Nat.leb_le in Hlen.
  destruct (tokens line) as [|t0 [|t1 [|t2 [|t3 [|t4 rest]]]]];
    cbn in Hlen; try lia.
  cbn [firstn forallb] in Hnum. unfold parses_as_number in Hnum.
  repeat (apply andb_true_iff in Hnum; destruct Hnum as [? Hnum]).
  unfold field.
  destruct i as [|[|[|[|[|i]]]]]; cbn [nth_error]; try lia;
    match goal with
    | Hn : negb (isNaN ?x) = true |- isNaN ?x = false =>
        now apply negb_true_iff in Hn
    end.
Qed.

(** The three arrays of [parseS2P] hold one entry per line that is not
    skipped, in the order of the lines: the frequency is the Number of the
    first token and the two levels come from the next four.  A line is
    skipped exactly when it is empty, begins with [#] or [!], has fewer
    than 5 tokens or has a token among the first 5 that is no number; and
    no frequency kept is NaN. *)
Theorem parsed_rows_are_the_valid_lines (E : Engine) (text : jsstring) :
  let ls := filter valid_line (split_lines text) in
  freqs (parseS2P E text) = List.map (fun l => field (tokens l) 0) ls
  /\ s11 (parseS2P E text)
     = List.map (fun l => dB E (field (tokens l) 1) (field (tokens l) 2)) ls
  /\ s21 (parseS2P E text)
     = List.map (fun l => dB E (field (tokens l) 3) (field (tokens l) 4)) ls
  /\ (forall l, valid_line l = true <-> ~ skipped l)
  /\ Forall (fun f => isNaN f = false) (freqs (parseS2P E text))
  /\ (List.length (freqs (parseS2P E text))
      <= List.length (split_lines text))%nat.
Proof.
  cbn zeta. unfold parseS2P. rewrite parse_lines_rows.
  cbn [freqs s11 s21 no_rows app].
  repeat split.
  - now apply valid_iff_not_skipped.
  - now apply valid_iff_not_skipped.
  - apply Forall_map, Forall_forall. intros l Hl.
    apply filter_In in Hl. destruct Hl as [_ Hv].
    apply (valid_line_fields l Hv). lia.
  - rewrite length_map. apply filter_length_le.
Qed.

(** ** The click never ends in the error branch *)

(** Whatever the file, the [catch] of [reader.onload] is never entered: the
    status is a message of the handler, never the text of an error. *)
Theorem conversion_never_reports_an_error (E : Engine)
        (selected : option File) (pg : Page) (e : error) :
  status (on_click E selected pg) <> ErrorText e.
Proof.
  unfold on_click. destruct selected as [f|]; [|discriminate].
  destruct (content f) as [text|]; [|discriminate].
  unfold on_load.
  destruct (buildDat_parsed E text (lit "S11(dB)")) as [[t1 H1] _].
  destruct (buildDat_parsed E text (lit "S21(dB)")) as [_ [t2 H2]].
  destruct (freqs (parseS2P E text)); [discriminate|].
  rewrite H1, H2. discriminate.
Qed.

(** When the text has a valid line, the click leaves exactly two links, the
    S11 table under the name of the file without its [.s2p] followed by
    [_S11.dat] and the S21 table under the same base with [_S21.dat], shows
    the link area, and reports the number of points. *)
Theorem conversion_yields_two_links (E : Engine) (f : File)
        (text : jsstring) (pg : Page) :
  content f = Some text ->
  freqs (parseS2P E text) <> [] ->
  exists t1 t2,
    buildDat (freqs (parseS2P E text)) (s11 (parseS2P E text))
             (lit "S11(dB)") = Normal t1
    /\ buildDat (freqs (parseS2P E text)) (s21 (parseS2P E text))
                (lit "S21(dB)") = Normal t2
    /\ on_click E (Some f) pg =
       {| generatedLinks :=
            [makeDownload t1 (base_name (name f) ++ lit "_S11.dat");
             makeDownload t2 (base_name (name f) ++ lit "_S21.dat")];
          linksDisplay := lit "block";
          status :=
            Text (lit "Conversion OK — "
                  ++ dec_string
                       (Z.of_nat (List.length (freqs (parseS2P E text))))
                  ++ lit " points générés.") |}.
Proof.
  intros Hc Hne.
  destruct (buildDat_parsed E text (lit "S11(dB)")) as [[t1 H1] _].
  destruct (buildDat_parsed E text (lit "S21(dB)")) as [_ [t2 H2]].
  exists t1, t2. repeat split; auto.
  unfold on_click, on_load. rewrite Hc.
  destruct (freqs (parseS2P E text)) eqn:Hf; [congruence|].
  rewrite H1, H2. reflexivity.
Qed.

(** ** The base name *)

Lemma firstn_skipn_suffix {A} (b ext : list A) :
  firstn (List.length (b ++ ext) - List.length ext) (b ++ ext) = b
  /\ skipn (List.length (b ++ ext) - List.length ext) (b ++ ext) = ext.
Proof.
  rewrite length_app.
  replace (List.length b + List.length ext - List.length ext)%nat
    with (List.length b) by lia.
  split.
  - rewrite firstn_app, Nat.sub_diag, firstn_all. cbn. apply app_nil_r.
  - rewrite skipn_app, Nat.sub_diag, skipn_all. reflexivity.
Qed.

(** The base name is the file name without a final [.s2p], in any letter
    case, and the file name itself when it does not end so. *)
Theorem base_name_strips_the_extension (n : jsstring) :
  (forall ext, is_s2p_suffix ext = true -> base_name (n ++ ext) = n)
  /\ (exists ext,
        n = base_name n ++ ext
        /\ (ext = [] \/ is_s2p_suffix ext = true)).
Proof.
  split.
  - intros ext He. unfold base_name.
    assert (Hl : List.length ext = 4%nat).
    { destruct ext as [|a [|b [|c [|d [|x r]]]]]; try discriminate.
      reflexivity. }
    rewrite <- Hl.
    destruct (firstn_skipn_suffix n ext) as [-> ->]. now rewrite He.
  - unfold base_name.
    destruct (is_s2p_suffix (skipn (List.length n - 4) n)) eqn:Hs.
    + exists (skipn (List.length n - 4) n). split; [|now right].
      symmetry. apply firstn_skipn.
    + exists []. split; [now rewrite app_nil_r | now left].
Qed.

(** ** The bounds of [buildDat] *)

Lemma rows_short (fs vals : list number) :
  (List.length vals < List.length fs)%nat -> rows fs vals = Throw TypeError.
Proof.
  revert vals. induction fs as [|f fs IH]; intros vals H; cbn in H; [lia|].
  destruct vals as [|v vals]; [reflexivity|].
  cbn in H. cbn [rows hd_error tl row bind].
  rewrite IH by lia. reflexivity.
Qed.

Lemma rows_enough (fs vals : list number) :
  (List.length fs <= List.length vals)%nat ->
  exists rs, rows fs vals = Normal rs /\ List.length rs = List.length fs.
Proof.
  revert vals. induction fs as [|f fs IH]; intros vals H.
  - now exists [].
  - destruct vals as [|v vals]; cbn in H; [lia|].
    destruct (IH vals ltac:(lia)) as (rs & Hrs & Hl).
    cbn [rows hd_error tl row bind]. rewrite Hrs. cbn [bind].
    eexists. split; [reflexivity|]. cbn. now rewrite Hl.
Qed.

Lemma rows_firstn (fs vals : list number) :
  (List.length fs <= List.length vals)%nat ->
  rows fs (firstn (List.length fs) vals) = rows fs vals.
Proof.
  revert vals. induction fs as [|f fs IH]; intros vals H; [reflexivity|].
  destruct vals as [|v vals]; cbn in H; [lia|].
  cbn [List.length firstn rows hd_error tl].
  now rewrite IH by lia.
Qed.

(** [buildDat] reads one value per frequency: with fewer values than
    frequencies it throws a [TypeError]; otherwise it returns the header
    line followed by one row per frequency, and values past the last
    frequency are not read. *)
Theorem buildDat_needs_a_value_per_frequency (fs vals : list number)
        (label : jsstring) :
  ((List.length vals < List.length fs)%nat ->
   buildDat fs vals label = Throw TypeError)
  /\ ((List.length fs <= List.length vals)%nat ->
      exists rs,
        List.length rs = List.length fs
        /\ buildDat fs vals label =
           Normal (join_lines
                     ((lit "# Frequency(Hz)" ++ [0x09%N] ++ label) :: rs))
        /\ buildDat fs (firstn (List.length fs) vals) label
           = buildDat fs vals label).
Proof.
  split.
  - intros H. unfold buildDat. now rewrite rows_short.
  - intros H. destruct (rows_enough fs vals H) as (rs & Hrs & Hl).
    exists rs. split; [exact Hl|]. unfold buildDat.
    rewrite rows_firstn by exact H. rewrite Hrs. now split.
Qed.

End ConverterMore.

(* ================================================================= *)
(** * assets/main.js: the size and the buttons of a card *)

Module Cards.
Import JS Num Data.

(** A value of the catalogue that need not be a string: [size_bytes]. *)
Inductive value :=
| VUndefined
| VNull
| VNum (n : number)
| VStr (s : jsstring).

(** An item as [makeCard] reads it: the entry, and the properties that
    are only displayed. *)
Record Item := {
  record : DownloadRecord;
  version : prop;
  date : prop;
  size_bytes : value;
  versionweb : prop
}.

(** [Number(bytes)] *)
Definition ToNumber (v : value) : number :=
  match v with
  | VUndefined => S754_nan
  | VNull => pos_zero
  | VNum n => n
  | VStr s => Number s
  end.

(** [const u=['B','KB','MB','GB']] *)
Definition units : list jsstring := [lit "B"; lit "KB"; lit "MB"; lit "GB"].

(** The loop [while(v>=1024 && i<u.length-1){ v/=1024; i++; }]: [left] is
    [u.length - 1 - i], the turns the second test still allows. *)
Fixpoint scale (left : nat) (v : number) (i : nat) : number * nat :=
  match left with
  | O => (v, i)
  | S k =>
      if SFleb (of_Z 1024) v
      then scale k (SFdiv prec emax v (of_Z 1024)) (S i)
      else (v, i)
  end.

(** [humanSize(bytes)] *)
Definition humanSize (bytes : value) : jsstring :=
  match bytes with
  | VUndefined | VNull => lit "—"
  | _ =>
      let v := ToNumber bytes in
      if isNaN v then lit "—"
      else
        let (v, i) := scale 3 v 0 in
        toFixed v (if SFltb v (of_Z 10) && (0 <? i)%nat then 1 else 0)
        ++ lit " " ++ nth i units []
  end.

(** [encodeURIComponent(s)]: letters, digits and the marks [-_.!~*'()] are
    kept, every other character is escaped octet by octet. *)
Definition component_kept (c : N) : bool :=
  is_alnum c || existsb (N.eqb c) (lit "-_.!~*'()").

Definition encodeURIComponent (s : jsstring) : jsstring :=
  flat_map (fun c => if component_kept c then [c]
                     else flat_map escape_octet (utf8_encode c)) s.

(** [s.endsWith(suffix)] *)
Definition endsWith (s suffix : jsstring) : bool :=
  startsWith (rev s) (rev suffix).

Section Script.
Variable U : UCD.

(** [String(it.filename || '').trim()] *)
Definition card_filename (it : Item) : jsstring :=
  trim (or_else (filename (record it)) []).

(** [encodeURI('files/' + filename)] *)
Definition hrefFile (it : Item) : jsstring :=
  encodeURI (lit "files/" ++ card_filename it).

Definition isPdf (it : Item) : bool :=
  endsWith (toLowerCase U (card_filename it)) (lit ".pdf").

Definition isZip (it : Item) : bool :=
  endsWith (toLowerCase U (card_filename it)) (lit ".zip").

(** [((it.category || '') + '').toString().toLowerCase().trim()] *)
Definition card_category (it : Item) : jsstring :=
  trim (toLowerCase U (or_else (category (record it)) [])).

(** The address the card opens: the viewer for the category [algorithme],
    the file otherwise. *)
Definition viewer_link (it : Item) : jsstring :=
  lit "viewer.html?title="
  ++ encodeURIComponent (or_else (title (record it)) (card_filename it)).

Definition openHref (it : Item) : jsstring :=
  if str_eqb (card_category it) (lit "algorithme") then viewer_link it
  else hrefFile it.

Definition downloadBtn (it : Item) : jsstring :=
  if truthy (card_filename it) then
    lit "<a class=" ++ dquote ++ lit "button" ++ dquote ++ lit " href="
    ++ dquote ++ hrefFile it ++ dquote ++ lit " "
    ++ (if isPdf it || isZip it then lit "download" else [])
    ++ lit ">Télécharger</a>"
  else [].

Definition openBtn (it : Item) : jsstring :=
  if str_eqb (card_category it) (lit "bibliographie") then []
  else
    lit "<a class=" ++ dquote ++ lit "button secondary" ++ dquote
    ++ lit " href=" ++ dquote ++ openHref it ++ dquote ++ lit ">Ouvrir</a>".

Definition webBtn (it : Item) : jsstring :=
  if given (versionweb it)
     && negb (Nat.eqb (List.length (trim (or_else (versionweb it) []))) 0)
  then
    lit "<a class=" ++ dquote ++ lit "button secondary" ++ dquote
    ++ lit " href=" ++ dquote ++ or_else (versionweb it) [] ++ dquote
    ++ lit " target=" ++ dquote ++ lit "_blank" ++ dquote
    ++ lit " rel=" ++ dquote ++ lit "noopener" ++ dquote
    ++ lit ">🔗Web</a>"
  else [].

(** [const actions = `${downloadBtn}${openBtn}${webBtn}`], as the later
    revision of the script has it (the earlier one puts each button on a
    line of its own). *)
Definition actions (it : Item) : jsstring :=
  downloadBtn it ++ openBtn it ++ webBtn it.

End Script.
End Cards.

(* ================================================================= *)
(** * The size and the links of a card *)

Module CardFacts.
Import JS Num Data Cards Main HostFacts MainFacts EscapeFacts.

(** ** [humanSize] *)



(** The sizes below 1024 are printed in bytes, without decimals. *)
Definition bytes_printed (n : nat) : bool :=
  str_eqb (humanSize (VNum (of_Z (Z.of_nat n))))
          (dec_string (Z.of_nat n) ++ lit " B").

Lemma bytes_printed_below_1024 :
  forallb bytes_printed (seq 0 1024) = true.
Proof. vm_compute. reflexivity. Qed.

Theorem humanSize_below_1024 (z : Z) :
  (0 <= z < 1024)%Z ->
  humanSize (VNum (of_Z z)) = dec_string z ++ lit " B".
Proof.
  intros Hz.
  pose proof bytes_printed_below_1024 as H.
  rewrite forallb_forall in H.
  specialize (H (Z.to_nat z)).
  unfold bytes_printed in H. rewrite Z2Nat.id in H by lia.
  apply str_eqb_eq, H, in_seq. lia.
Qed.

(** ** The links *)

Lemma uri_char_no_markup (c : N) :
  uri_char c = true ->
  c <> 0x22%N /\ c <> 0x20%N /\ c <> 0x3C%N /\ c <> 0x3E%N.
Proof.
  intros H. repeat split; intros ->; discriminate.
Qed.

Lemma encodeURI_app (a b : jsstring) :
  encodeURI (a ++ b) = encodeURI a ++ encodeURI b.
Proof. unfold encodeURI. apply flat_map_app. Qed.

(** For a well-formed file name, the address of the file of a card is
    [files/] followed by the encoded file name, and it holds no double
    quote, space, [<] or [>]: the file name cannot end the [href] attribute
    it is written in. *)
Theorem card_file_link_is_safe (it : Item) :
  Forall usv (card_filename it) ->
  hrefFile it = lit "files/" ++ encodeURI (card_filename it)
  /\ (forall c, In c (hrefFile it) ->
        c <> 0x22%N /\ c <> 0x20%N /\ c <> 0x3C%N /\ c <> 0x3E%N).
Proof.
  intros Hu.
  assert (Hs : Forall scalar (card_filename it))
    by (eapply Forall_impl; [apply usv_scalar|exact Hu]).
  unfold hrefFile. rewrite encodeURI_app. split; [reflexivity|].
  intros c Hc. apply uri_char_no_markup.
  apply in_app_or in Hc. destruct Hc as [Hc|Hc].
  - cbn in Hc. intuition (subst; reflexivity).
  - pose proof (encodeURI_chars Hs) as H.
    rewrite forallb_forall in H. now apply H.
Qed.

(** [makeCard] does not fold the spellings of a category as [render] does:
    the card opens the viewer only when the lower-cased, trimmed category
    is [algorithme] itself, so an item spelled [algo] or [algorithm] is
    grouped with the algorithms but its card opens the file; and an item
    spelled [biblio] is grouped with the bibliography but keeps the open
    button that [bibliographie] items do not have. *)
Theorem card_does_not_fold_spellings (U : UCD) (it : Item) (c : jsstring) :
  category (record it) = Some c ->
  truthy c = true ->
  let n := trim (toLowerCase U c) in
  (n = lit "algorithme" ->
   key_of U (record it) = lit "algorithme"
   /\ openHref U it = viewer_link it)
  /\ (n = lit "algo" \/ n = lit "algorithm" ->
      key_of U (record it) = lit "algorithme"
      /\ openHref U it = hrefFile it)
  /\ (n = lit "bibliographie" ->
      key_of U (record it) = lit "bibliographie" /\ openBtn U it = [])
  /\ (n = lit "biblio" ->
      key_of U (record it) = lit "bibliographie" /\ openBtn U it <> []).
Proof.
  intros Hc Ht. cbn zeta.
  assert (Hcat : card_category U it = trim (toLowerCase U c)).
  { unfold card_category, or_else. now rewrite Hc, Ht. }
  assert (Hkey : or_else (category (record it)) (lit "autre") = c).
  { unfold or_else. now rewrite Hc, Ht. }
  unfold key_of, openHref, openBtn. rewrite Hkey, Hcat.
  split; [|split; [|split]]; intros Hn;
    repeat match type of Hn with _ \/ _ => destruct Hn as [Hn|Hn] end;
    rewrite Hn; split; try reflexivity.
  cbn. discriminate.
Qed.

End CardFacts.

(* ================================================================= *)
(** * assets/viewer.js: [params()] *)

Module Query.
Import JS Data Viewer.

Local Open Scope N_scope.

(** A string given to the platform is first made of scalar values: a lone
    surrogate becomes U+FFFD. *)
Definition to_scalar (c : N) : N :=
  if (0xD800 <=? c) && (c <=? 0xDFFF) then 0xFFFD else c.

(** UTF-8 encode. *)
Definition utf8_bytes (s : jsstring) : list N :=
  flat_map utf8_encode (List.map to_scalar s).

(** Percent-decode of a sequence of octets: an escape [%XX] gives its
    octet, a percent sign without two hexadecimal digits stays. *)
Fixpoint percent_decode (bs : list N) : list N :=
  match bs with
  | [] => []
  | b :: r =>
      if b =? 0x25 then
        match r with
        | h1 :: h2 :: r2 =>
            match hex_val h1, hex_val h2 with
            | Some a, Some c => (16 * a + c) :: percent_decode r2
            | _, _ => b :: percent_decode r
            end
        | _ => b :: percent_decode r
        end
      else b :: percent_decode r
  end.

(** UTF-8 decode without BOM, replacing what is ill-formed by U+FFFD.  The
    decoder is at the start of a character, or inside one with the code
    point read so far, the number of octets still needed and the bounds of
    the next octet. *)
Inductive decoder :=
| Start
| Inside (cp : N) (needed : nat) (lower upper : N).

(** An octet read at the start of a character: what is emitted, and the
    next state. *)
Definition first_octet (b : N) : jsstring * decoder :=
  if b <=? 0x7F then ([b], Start)
  else if (0xC2 <=? b) && (b <=? 0xDF) then
    ([], Inside (b - 0xC0) 1 0x80 0xBF)
  else if (0xE0 <=? b) && (b <=? 0xEF) then
    ([], Inside (b - 0xE0) 2 (if b =? 0xE0 then 0xA0 else 0x80)
                 (if b =? 0xED then 0x9F else 0xBF))
  else if (0xF0 <=? b) && (b <=? 0xF4) then
    ([], Inside (b - 0xF0) 3 (if b =? 0xF0 then 0x90 else 0x80)
                 (if b =? 0xF4 then 0x8F else 0xBF))
  else ([0xFFFD], Start).

Fixpoint utf8_decode_lossy (st : decoder) (bs : list N) : jsstring :=
  match bs with
  | [] =>
      match st with
      | Start => []
      | Inside _ _ _ _ => [0xFFFD]
      end
  | b :: r =>
      match st with
      | Start =>
          let (out, st') := first_octet b in out ++ utf8_decode_lossy st' r
      | Inside cp needed lower upper =>
          if (lower <=? b) && (b <=? upper) then
            let cp' := cp * 64 + (b - 0x80) in
            match needed with
            | S (S k) => utf8_decode_lossy (Inside cp' (S k) 0x80 0xBF) r
            | _ => cp' :: utf8_decode_lossy Start r
            end
          else
            (* the octet is read again, at the start of a character *)
            let (out, st') := first_octet b in
            0xFFFD :: out ++ utf8_decode_lossy st' r
      end
  end.

(** The pieces between the occurrences of a separator. *)
Fixpoint split_on_from (sep : N) (cur : list N) (bs : list N)
  : list (list N) :=
  match bs with
  | [] => [rev cur]
  | b :: r =>
      if b =? sep then rev cur :: split_on_from sep [] r
      else split_on_from sep (b :: cur) r
  end.

Definition split_on (sep : N) (bs : list N) : list (list N) :=
  split_on_from sep [] bs.

(** What precedes the first separator and, when there is one, what
    follows it. *)
Fixpoint split_first (sep : N) (bs : list N) : list N * option (list N) :=
  match bs with
  | [] => ([], None)
  | b :: r =>
      if b =? sep then ([], Some r)
      else let (n, v) := split_first sep r in (b :: n, v)
  end.

Definition plus_to_space (bs : list N) : list N :=
  List.map (fun b => if b =? 0x2B then 0x20 else b) bs.

Definition decode_component (bs : list N) : jsstring :=
  utf8_decode_lossy Start (percent_decode (plus_to_space bs)).

(** The parser of [application/x-www-form-urlencoded]: the name and the
    value of each non-empty piece between ampersands. *)
Definition parse_urlencoded (bs : list N) : list (jsstring * jsstring) :=
  flat_map
    (fun piece =>
       match piece with
       | [] => []
       | _ =>
           let (n, v) := split_first 0x3D piece in
           [(decode_component n,
             decode_component match v with Some v => v | None => [] end)]
       end)
    (split_on 0x26 bs).

(** [new URLSearchParams(init)] for a string: a leading question mark is
    dropped. *)
Definition URLSearchParams (init : jsstring) : list (jsstring * jsstring) :=
  parse_urlencoded
    (utf8_bytes match init with
                | 0x3F :: r => r
                | _ => init
                end).

(** The property [name] of [Object.fromEntries(entries)]: the value of the
    last entry of that name. *)
Definition property (name : jsstring) (entries : list (jsstring * jsstring))
  : prop :=
  fold_left (fun acc e => if str_eqb (fst e) name then Some (snd e) else acc)
            entries None.

(** [params()], for the value [search] of [location.search]. *)
Definition params (search : jsstring) : Params :=
  let entries := URLSearchParams search in
  {| p_title := property (lit "title") entries;
     p_file := property (lit "file") entries |}.

End Query.

(* ================================================================= *)
(** * From the link of a card to the entry of the viewer *)

Module QueryFacts.
Import JS Data Viewer Cards Query HostFacts ViewerFacts EscapeFacts.

Local Open Scope N_scope.

(** Decide the tests of the goal that arithmetic settles. *)
Ltac settle :=
  repeat match goal with
         | |- context [?a <=? ?b] =>
             first [ replace (a <=? b) with true
                       by (symmetry; apply N.leb_le; lia)
                   | replace (a <=? b) with false
                       by (symmetry; apply N.leb_gt; lia) ]
         | |- context [?a <? ?b] =>
             first [ replace (a <? b) with true
                       by (symmetry; apply N.ltb_lt; lia)
                   | replace (a <? b) with false
                       by (symmetry; apply N.ltb_ge; lia) ]
         | |- context [?a =? ?b] =>
             first [ replace (a =? b) with true
                       by (symmetry; apply N.eqb_eq; lia)
                   | replace (a =? b) with false
                       by (symmetry; apply N.eqb_neq; lia) ]
         end.

Lemma to_scalar_usv (s : jsstring) :
  Forall usv s -> List.map to_scalar s = s.
Proof.
  induction 1 as [|c r Hc _ IH]; cbn; [reflexivity|].
  rewrite IH. f_equal. unfold to_scalar, usv in *.
  destruct Hc as [Hc|Hc]; settle; reflexivity.
Qed.

(** ** UTF-8: decoding what was encoded *)

Ltac step :=
  unfold first_octet; settle;
  cbn [app utf8_decode_lossy andb]; settle; cbn [app andb].

Lemma decode_encoded (c : N) (rest : list N) :
  usv c ->
  utf8_decode_lossy Start (utf8_encode c ++ rest)
  = c :: utf8_decode_lossy Start rest.
Proof.
  unfold usv, utf8_encode. intros Hc.
  destruct (N.ltb_spec c 0x80).
  { cbn [app utf8_decode_lossy]. step. reflexivity. }
  destruct (N.ltb_spec c 0x800).
  { cbn [app utf8_decode_lossy]. repeat step. f_equal. lia. }
  destruct (N.ltb_spec c 0x10000).
  { cbn [app utf8_decode_lossy].
    destruct (N.eq_dec (c / 4096) 0) as [Hz|Hz];
      destruct (N.eq_dec (c / 4096) 13) as [H13|H13];
      repeat step; f_equal; lia. }
  cbn [app utf8_decode_lossy].
  destruct (N.eq_dec (c / 262144) 0) as [Hz|Hz];
    destruct (N.eq_dec (c / 262144) 4) as [H4|H4];
    repeat step; f_equal; lia.
Qed.

Lemma decode_encoded_string (t : jsstring) :
  Forall usv t -> utf8_decode_lossy Start (flat_map utf8_encode t) = t.
Proof.
  induction 1 as [|c r Hc _ IH]; [reflexivity|].
  cbn [flat_map]. now rewrite decode_encoded, IH.
Qed.

(** ** Percent-decoding what was escaped *)

Lemma hex_val_hex_char (v : N) : v < 16 -> hex_val (hex_char v) = Some v.
Proof.
  intros H. unfold hex_char, hex_val.
  destruct (N.ltb_spec v 10).
  - settle. cbn [andb]. f_equal. lia.
  - settle. cbn [andb]. f_equal. lia.
Qed.

Lemma percent_decode_escape (b : N) (rest : list N) :
  b < 256 ->
  percent_decode (escape_octet b ++ rest) = b :: percent_decode rest.
Proof.
  intros H. unfold escape_octet. cbn [app percent_decode].
  replace (0x25 =? 0x25) with true by reflexivity.
  rewrite !hex_val_hex_char by lia. f_equal. lia.
Qed.

Lemma percent_decode_escapes (bs rest : list N) :
  Forall (fun b => b < 256) bs ->
  percent_decode (flat_map escape_octet bs ++ rest)
  = bs ++ percent_decode rest.
Proof.
  induction 1 as [|b r Hb _ IH]; [reflexivity|].
  cbn [flat_map]. rewrite <- app_assoc.
  now rewrite percent_decode_escape, IH.
Qed.

(** ** The encodings of a title

    A query [q] encodes the text [t] when every character of [t] is either
    written as it is, if [encodeURIComponent] keeps it, or escaped octet by
    octet.  [encodeURIComponent(t)] is such an encoding, and so is what the
    address bar makes of it when it escapes characters that were kept. *)
Inductive encodes : jsstring -> jsstring -> Prop :=
| encodes_nil : encodes [] []
| encodes_kept c t q :
    component_kept c = true -> encodes t q -> encodes (c :: t) (c :: q)
| encodes_escaped c t q :
    encodes t q ->
    encodes (c :: t) (flat_map escape_octet (utf8_encode c) ++ q).

Lemma encodeURIComponent_encodes (t : jsstring) :
  encodes t (encodeURIComponent t).
Proof.
  induction t as [|c r IH]; [constructor|].
  unfold encodeURIComponent. cbn [flat_map].
  destruct (component_kept c) eqn:Hk.
  - now constructor.
  - now constructor.
Qed.

(** The characters of such a query: Basic Latin, and none of [&], [+]. *)
Definition plain (c : N) : Prop := c < 128 /\ c <> 0x26 /\ c <> 0x2B.

Lemma alnum_plain (c : N) : is_alnum c = true -> plain c.
Proof.
  unfold is_alnum, plain. intros H.
  destruct (N.leb_spec 0x30 c), (N.leb_spec c 0x39), (N.leb_spec 0x41 c),
    (N.leb_spec c 0x5A), (N.leb_spec 0x61 c), (N.leb_spec c 0x7A);
    cbn in H; try discriminate; lia.
Qed.

Lemma kept_plain (c : N) : component_kept c = true -> plain c /\ c <> 0x25.
Proof.
  unfold component_kept. intros H. apply orb_true_iff in H.
  destruct H as [H|H].
  - split; [now apply alnum_plain|].
    intros ->. discriminate.
  - apply existsb_exists in H. destruct H as (x & Hin & Hx).
    apply N.eqb_eq in Hx. subst x. unfold plain.
    cbn in Hin. intuition (subst; lia).
Qed.

Lemma escape_octet_plain (b : N) : b < 256 -> Forall plain (escape_octet b).
Proof.
  intros H. unfold escape_octet.
  apply Forall_cons; [unfold plain; lia|].
  apply Forall_cons.
  { apply alnum_plain, hex_char_kept, N.Div0.div_lt_upper_bound. lia. }
  apply Forall_cons; [|constructor].
  apply alnum_plain, hex_char_kept, N.mod_lt. lia.
Qed.

Lemma encodes_plain (t q : jsstring) :
  Forall usv t -> encodes t q -> Forall plain q.
Proof.
  intros Ht He. induction He as [|c t q Hk He IH|c t q He IH].
  - constructor.
  - inversion Ht; subst. constructor; [now apply kept_plain|auto].
  - inversion Ht as [|? ? Hc Hr]; subst. apply Forall_app. split; [|auto].
    pose proof (utf8_encode_octets (usv_scalar Hc)) as Ho.
    induction Ho as [|b l Hb _ IHl]; [constructor|].
    cbn [flat_map]. apply Forall_app. split; [|exact IHl].
    now apply escape_octet_plain.
Qed.

Lemma encodes_decodes (t q : jsstring) :
  Forall usv t -> encodes t q ->
  percent_decode q = flat_map utf8_encode t.
Proof.
  intros Ht He. induction He as [|c t q Hk He IH|c t q He IH].
  - reflexivity.
  - inversion Ht as [|? ? Hc Hr]; subst.
    destruct (kept_plain c Hk) as [[Hlt _] Hp].
    cbn [percent_decode flat_map].
    replace (c =? 0x25) with false by (symmetry; now apply N.eqb_neq).
    rewrite IH by assumption.
    unfold utf8_encode. settle. reflexivity.
  - inversion Ht as [|? ? Hc Hr]; subst.
    rewrite percent_decode_escapes
      by apply utf8_encode_octets, usv_scalar, Hc.
    cbn [flat_map]. now rewrite IH.
Qed.

Lemma plain_utf8_bytes (q : jsstring) : Forall plain q -> utf8_bytes q = q.
Proof.
  unfold utf8_bytes. induction 1 as [|c r [Hc _] _ IH]; [reflexivity|].
  cbn [List.map flat_map]. rewrite IH.
  unfold to_scalar. settle. cbn [andb].
  unfold utf8_encode. settle. reflexivity.
Qed.

Lemma plain_plus_to_space (q : jsstring) :
  Forall plain q -> plus_to_space q = q.
Proof.
  unfold plus_to_space. induction 1 as [|c r [_ [_ Hc]] _ IH];
    [reflexivity|].
  cbn [List.map]. rewrite IH.
  replace (c =? 0x2B) with false by (symmetry; now apply N.eqb_neq).
  reflexivity.
Qed.

Lemma plain_split_on (q cur : jsstring) :
  Forall plain q -> split_on_from 0x26 cur q = [rev cur ++ q].
Proof.
  intros H. revert cur. induction H as [|c r [_ [Hc _]] _ IH]; intros cur.
  - cbn. now rewrite app_nil_r.
  - cbn [split_on_from].
    replace (c =? 0x26) with false by (symmetry; now apply N.eqb_neq).
    rewrite IH. cbn [rev]. now rewrite <- app_assoc.
Qed.

Lemma decode_component_encoded (t q : jsstring) :
  Forall usv t -> encodes t q -> decode_component q = t.
Proof.
  intros Ht He. unfold decode_component.
  rewrite (plain_plus_to_space (encodes_plain Ht He)).
  rewrite (encodes_decodes Ht He).
  now apply decode_encoded_string.
Qed.

Lemma params_title_aux (t q : jsstring) :
  Forall usv t -> encodes t q ->
  params (lit "?title=" ++ q) = {| p_title := Some t; p_file := None |}.
Proof.
  intros Ht He.
  pose proof (encodes_plain Ht He) as Hq.
  unfold params, URLSearchParams.
  change (lit "?title=" ++ q) with (0x3F :: lit "title=" ++ q).
  cbv beta iota zeta.
  assert (Hp : Forall plain (lit "title=" ++ q)).
  { apply Forall_app. split; [|exact Hq].
    change (lit "title=") with [116; 105; 116; 108; 101; 61].
    repeat (apply Forall_cons; [unfold plain; lia|]). constructor. }
  rewrite (plain_utf8_bytes Hp).
  unfold parse_urlencoded, split_on.
  rewrite (plain_split_on [] Hp). cbn [rev app flat_map].
  change (lit "title=" ++ q)
    with (116 :: 105 :: 116 :: 108 :: 101 :: 61 :: q).
  cbn [split_first N.eqb Pos.eqb].
  rewrite (decode_component_encoded Ht He).
  reflexivity.
Qed.

(** [params] reads back a title written in the query by
    [encodeURIComponent], also when kept characters were escaped on the
    way: the [title] parameter is the text itself and there is no [file]
    parameter. *)
Theorem params_reads_back_the_title (t : jsstring) :
  Forall usv t ->
  encodes t (encodeURIComponent t)
  /\ (forall q, encodes t q ->
        params (lit "?title=" ++ q)
        = {| p_title := Some t; p_file := None |}).
Proof.
  intros Ht. split; [apply encodeURIComponent_encodes|].
  intros q He. now apply params_title_aux.
Qed.

(** The open button of an [algorithme] card leads to the entry: when the
    item has a title, following the link makes [findEntry] return the first
    entry of the catalogue that has this title. *)
Theorem card_link_finds_its_entry (U : UCD)
        (downloads : list DownloadRecord) (it : Item) (t q : jsstring) :
  In (record it) downloads ->
  card_category U it = lit "algorithme" ->
  title (record it) = Some t -> truthy t = true -> Forall usv t ->
  encodes t q ->
  openHref U it = lit "viewer.html?title=" ++ encodeURIComponent t
  /\ exists r0 pre post,
       downloads = pre ++ r0 :: post
       /\ title r0 = Some t
       /\ (forall d, In d pre -> title d <> Some t)
       /\ findEntry U downloads (params (lit "?title=" ++ q))
          = Normal (Some r0).
Proof.
  intros Hin Hcat Htitle Htruthy Ht He. split.
  - unfold openHref, viewer_link. rewrite Hcat, Htitle.
    cbn [or_else]. now rewrite Htruthy.
  - rewrite (params_title_aux Ht He).
    assert (Hq : title_query {| p_title := Some t; p_file := None |} t)
      by (split; [reflexivity|exact Htruthy]).
    destruct (find (tier_exact t) downloads) as [r0|] eqn:Hf.
    + pose proof Hf as Hfirst. apply find_first in Hfirst.
      destruct Hfirst as (pre & post & Hl & Hr0 & Hpre).
      exists r0, pre, post. repeat split; auto.
      * now apply (title_exactly t r0 Htruthy).
      * intros d Hd Habs. apply (title_exactly t d Htruthy) in Habs.
        rewrite (Hpre d Hd) in Habs. discriminate.
      * apply (@findEntry_title_query U downloads _ t r0 Hq).
        rewrite title_tiers_cascade, Hf. reflexivity.
    + exfalso. apply find_none with (x := record it) in Hf; [|exact Hin].
      apply (title_exactly t (record it) Htruthy) in Htitle. congruence.
Qed.

End QueryFacts.

(* ================================================================= *)
(** * assets/viewer.js, earlier revision *)

Module EarlierViewer.
Import JS Data Viewer.

(** What [console.debug] is given. *)
Inductive logged :=
| LogParams (p : Params)
| LogTitles (l : list prop)
| LogEntry (entry : option DownloadRecord).

(** What the earlier revision does, in order: to the page, or to the
    console. *)
Inductive step :=
| Page (e : effect)
| Debug (l : logged).

(** [d.title || d.filename] *)
Definition title_or_filename (d : DownloadRecord) : prop :=
  if given (title d) then title d else filename d.

(** The same value inside a template literal. *)
Definition printed (v : prop) : jsstring :=
  match v with
  | Some s => s
  | None => lit "undefined"
  end.

(** The populate step of the earlier revision. *)
Definition populate_earlier (entry : DownloadRecord) : list effect :=
  [SetText CodeTitle (or_else (title entry) (lit "Code Python"));
   SetText YamlTitle
     (if given (title entry) then or_else (title entry) [] ++ lit " — YAML"
      else lit "YAML / Config");
   SetText Info (lit "Affichage local depuis downloads.js — "
                 ++ printed (title_or_filename entry))]
  ++ fill_pane CodeBox RawCodeLink (code_py entry) (code_path entry)
       (lit "Pas de code embarqué (code_py absent). Chemin brut : ")
       (lit "Aucun code python embarqué ni path fourni.")
  ++ fill_pane YamlBox RawYamlLink (code_yaml entry) (yaml_path entry)
       (lit "Pas de YAML embarqué (code_yaml absent). Chemin brut : ")
       (lit "Aucun YAML embarqué ni path fourni.").

Section Script.
Variable U : UCD.

(** The body of the earlier revision, from the parameter check to the
    panes (the wheel, keyboard and copy listeners follow). *)
Definition viewer_earlier (downloads : list DownloadRecord) (p : Params)
  : list step :=
  if negb (given (p_title p)) && negb (given (p_file p)) then
    [Page (SetText Info (lit "Paramètre manquant. Appeler viewer.html?title=Nom%20du%20module ou ?file=nom.zip"))]
  else
    match findEntry U downloads p with
    | Throw e => [Page (Uncaught e)]
    | Normal entry =>
        [Debug (LogParams p);
         Debug (LogTitles (List.map title_or_filename downloads));
         Debug (LogEntry entry)]
        ++ List.map Page
             match entry with
             | Some e => populate_earlier e
             | None => no_match downloads
             end
    end.

(** What is done to the page. *)
Definition on_page (l : list step) : list effect :=
  flat_map (fun s => match s with Page e => [e] | Debug _ => [] end) l.

End Script.
End EarlierViewer.

(* ================================================================= *)
(** * The two revisions of the viewer *)

Module RevisionFacts.
Import JS Data Viewer EarlierViewer HostFacts ViewerFacts.

Lemma on_page_pages (l : list effect) : on_page (List.map Page l) = l.
Proof.
  unfold on_page. induction l as [|e l IH]; cbn; [reflexivity|].
  now f_equal.
Qed.

Lemma populate_earlier_no_navigate (entry : DownloadRecord) (u : jsstring) :
  ~ In (Navigate u) (populate_earlier entry).
Proof.
  unfold populate_earlier, fill_pane. intros H.
  repeat (apply in_app_or in H; destruct H as [H|H]);
    repeat match type of H with
           | In _ (if ?b then _ else _) => destruct b
           end;
    cbn in H; intuition discriminate.
Qed.

Lemma on_page_debug (a : logged) (l : list step) :
  on_page (Debug a :: l) = on_page l.
Proof. reflexivity. Qed.

Lemma viewer_earlier_page (U : UCD) (downloads : list DownloadRecord)
      (p : Params) :
  on_page (viewer_earlier U downloads p) =
  if negb (given (p_title p)) && negb (given (p_file p)) then
    [SetText Info (lit "Paramètre manquant. Appeler viewer.html?title=Nom%20du%20module ou ?file=nom.zip")]
  else
    match findEntry U downloads p with
    | Throw e => [Uncaught e]
    | Normal (Some e) => populate_earlier e
    | Normal None => no_match downloads
    end.
Proof.
  unfold viewer_earlier.
  destruct (negb (given (p_title p)) && negb (given (p_file p)));
    [reflexivity|].
  destruct (findEntry U downloads p) as [entry|e]; [|reflexivity].
  cbn [app]. rewrite !on_page_debug, on_page_pages.
  now destruct entry.
Qed.

(** The earlier revision never navigates, and shows a matched entry in the
    panes even when it has [liens]; on the page the two revisions do the
    same whenever no entry is matched (missing parameter, no match, error),
    so they differ only on what is shown for a match. *)
Theorem revisions_differ_only_on_a_match (U : UCD)
        (downloads : list DownloadRecord) (p : Params) :
  (forall u, ~ In (Navigate u) (on_page (viewer_earlier U downloads p)))
  /\ (forall entry,
        findEntry U downloads p = Normal (Some entry) ->
        on_page (viewer_earlier U downloads p) = populate_earlier entry)
  /\ ((forall entry, findEntry U downloads p <> Normal (Some entry)) ->
      on_page (viewer_earlier U downloads p) = viewer U downloads p).
Proof.
  rewrite viewer_earlier_page. unfold viewer.
  destruct (negb (given (p_title p)) && negb (given (p_file p))) eqn:Hg.
  { repeat split.
    - intros u [H|[]]. discriminate.
    - intros entry H.
      rewrite (findEntry_needs_parameter U downloads p H) in Hg.
      discriminate. }
  destruct (findEntry U downloads p) as [[entry|]|e] eqn:Hf.
  - repeat split.
    + intros u. apply populate_earlier_no_navigate.
    + now intros ? [= <-].
    + intros H. now destruct (H entry).
  - repeat split.
    + intros u H. apply ViewerMore.no_match_quiet in H.
      destruct H as [H _]. now destruct (H u).
    + discriminate.
  - repeat split.
    + intros u [H|[]]. discriminate.
    + discriminate.
Qed.

End RevisionFacts.

(* ================================================================= *)
(** * Texts made of lines: the tables and the recovery list *)

Module LinesFacts.
Import JS Num Data Viewer Converter HostFacts.

Local Open Scope N_scope.

(** A character that is no line feed and no carriage return, and a text
    that holds none. *)
Definition inline (c : N) : Prop := c <> 0x0A /\ c <> 0x0D.

Definition one_line (l : jsstring) : Prop := Forall inline l.

Lemma split_lines_from_app (l rest cur : jsstring) :
  one_line l ->
  split_lines_from cur (l ++ rest) = split_lines_from (rev l ++ cur) rest.
Proof.
  intros H. revert cur. induction H as [|c l [Hc _] _ IH]; intros cur.
  - reflexivity.
  - cbn [app split_lines_from].
    replace (c =? 0x0A) with false by (symmetry; now apply N.eqb_neq).
    rewrite IH. cbn [rev]. now rewrite <- app_assoc.
Qed.

Lemma drop_cr_other (c : N) (r : jsstring) :
  c <> 0x0D -> drop_cr (c :: r) = c :: r.
Proof.
  intros Hc. unfold drop_cr.
  destruct c as [|p]; [reflexivity|].
  repeat (destruct p as [p|p|]; try reflexivity).
  congruence.
Qed.

Lemma drop_cr_one_line (x : jsstring) : one_line x -> drop_cr x = x.
Proof.
  intros H. destruct H as [|c r [_ Hc] _]; [reflexivity|].
  now apply drop_cr_other.
Qed.

Lemma one_line_app (a b : jsstring) :
  one_line a -> one_line b -> one_line (a ++ b).
Proof. intros Ha Hb. apply Forall_app. now split. Qed.

Lemma one_line_rev (a : jsstring) : one_line a -> one_line (rev a).
Proof. apply Forall_rev. Qed.

(** Joining lines with line feeds and splitting the text again gives the
    lines back. *)
Lemma split_join (ls : list jsstring) (l cur : jsstring) :
  one_line cur -> one_line l -> Forall one_line ls ->
  split_lines_from cur (join_lines (l :: ls)) = (rev cur ++ l) :: ls.
Proof.
  intros Hcur Hl Hls. revert l cur Hcur Hl.
  induction Hls as [|l' ls' Hl' _ IH]; intros l cur Hcur Hl.
  - cbn [join_lines]. rewrite <- (app_nil_r l) at 1.
    rewrite split_lines_from_app by exact Hl. cbn [split_lines_from].
    now rewrite rev_app_distr, rev_involutive.
  - change (join_lines (l :: l' :: ls'))
      with (l ++ 0x0A :: join_lines (l' :: ls')).
    rewrite split_lines_from_app by exact Hl.
    cbn [split_lines_from N.eqb Pos.eqb].
    rewrite drop_cr_one_line
      by (apply one_line_app; [now apply one_line_rev|exact Hcur]).
    rewrite rev_app_distr, rev_involutive.
    rewrite IH by (try constructor; assumption). reflexivity.
Qed.

(** ** The characters of a printed Number *)

Ltac literal_line :=
  vm_compute; repeat (apply Forall_cons; [split; discriminate|]);
  apply Forall_nil.

Lemma uint_chars_one_line (u : Decimal.uint) : one_line (uint_chars u).
Proof.
  induction u; cbn [uint_chars];
    try (apply Forall_cons; [split; discriminate|assumption]).
  constructor.
Qed.

Lemma dec_string_one_line (n : Z) : one_line (dec_string n).
Proof. apply uint_chars_one_line. Qed.

Lemma zeros_one_line (n : Z) : one_line (zeros n).
Proof.
  unfold zeros. induction (Z.to_nat n) as [|k IH]; cbn; [constructor|].
  apply Forall_cons; [split; discriminate|exact IH].
Qed.

Lemma repeat_zero_one_line (k : nat) : one_line (repeat 0x30 k).
Proof.
  induction k as [|k IH]; cbn; [constructor|].
  apply Forall_cons; [split; discriminate|exact IH].
Qed.

Lemma firstn_one_line (k : nat) (l : jsstring) :
  one_line l -> one_line (firstn k l).
Proof.
  intros H. unfold one_line in *. rewrite <- (firstn_skipn k l) in H.
  apply Forall_app in H. tauto.
Qed.

Lemma skipn_one_line (k : nat) (l : jsstring) :
  one_line l -> one_line (skipn k l).
Proof.
  intros H. unfold one_line in *. rewrite <- (firstn_skipn k l) in H.
  apply Forall_app in H. tauto.
Qed.

Lemma cons_one_line (c : N) (l : jsstring) :
  inline c -> one_line l -> one_line (c :: l).
Proof. intros. now constructor. Qed.

Lemma layout_one_line (s n : Z) : one_line (layout s n).
Proof.
  unfold layout.
  pose proof (dec_string_one_line s) as Hd.
  destruct ((Z.of_nat (List.length (dec_string s)) <=? n)%Z && (n <=? 21)%Z).
  { apply one_line_app; [exact Hd|apply zeros_one_line]. }
  destruct ((0 <? n)%Z && (n <=? 21)%Z).
  { apply one_line_app; [now apply firstn_one_line|].
    apply cons_one_line; [split; discriminate|now apply skipn_one_line]. }
  destruct ((-6 <? n)%Z && (n <=? 0)%Z).
  { apply one_line_app; [literal_line|].
    apply one_line_app; [apply zeros_one_line|exact Hd]. }
  assert (He : one_line
                 (lit (if (0 <=? n - 1)%Z then "+" else "-")
                  ++ dec_string (Z.abs (n - 1)))).
  { apply one_line_app; [|apply dec_string_one_line].
    destruct (0 <=? n - 1)%Z; literal_line. }
  destruct (dec_string s) as [|d [|d' r]]; [constructor| |].
  - inversion Hd; subst.
    apply cons_one_line; [assumption|].
    apply cons_one_line; [split; discriminate|exact He].
  - inversion Hd as [|? ? Hd1 Hd2]; subst.
    apply cons_one_line; [assumption|].
    apply cons_one_line; [split; discriminate|].
    apply one_line_app; [exact Hd2|].
    apply cons_one_line; [split; discriminate|exact He].
Qed.

Lemma NumberToString_one_line (x : number) : one_line (NumberToString x).
Proof.
  unfold NumberToString. destruct x as [s|s| |s m e].
  - literal_line.
  - destruct s; literal_line.
  - literal_line.
  - destruct (shortest _ _ _ _ _ _) as [digits n'].
    apply one_line_app; [destruct s; [literal_line|constructor]|].
    apply layout_one_line.
Qed.

Lemma toFixed_one_line (x : number) (f : Z) : one_line (toFixed x f).
Proof.
  unfold toFixed. destruct x as [s|s| |s m e];
    try apply NumberToString_one_line.
  - apply one_line_app; [literal_line|].
    destruct (f =? 0)%Z; [constructor|].
    apply cons_one_line; [split; discriminate|apply zeros_one_line].
  - destruct (if (0 <=? e)%Z then _ else _);
      [apply NumberToString_one_line|].
    cbv zeta.
    match goal with
    | |- context [repeat 0x30 ?k ++ dec_string ?n] =>
        assert (Hds : one_line (repeat 0x30 k ++ dec_string n))
          by (apply one_line_app;
              [apply repeat_zero_one_line|apply dec_string_one_line]);
        generalize dependent (repeat 0x30 k ++ dec_string n)
    end.
    intros ds Hds.
    apply one_line_app; [destruct s; [literal_line|constructor]|].
    apply one_line_app; [now apply firstn_one_line|].
    destruct (Z.to_nat f =? 0)%nat; [constructor|].
    apply cons_one_line; [split; discriminate|now apply skipn_one_line].
Qed.

(** ** The lines of a table *)

(** The row of one frequency and one value. *)
Definition row_text (fv : number * number) : jsstring :=
  NumberToString (Math_round (fst fv)) ++ [0x09] ++ toFixed (snd fv) 2.

Lemma rows_combine (fs vals : list number) :
  (List.length fs <= List.length vals)%nat ->
  rows fs vals = Normal (List.map row_text (combine fs vals)).
Proof.
  revert vals. induction fs as [|f fs IH]; intros vals H; [reflexivity|].
  destruct vals as [|v vals]; cbn in H; [lia|].
  cbn [rows hd_error tl row bind combine List.map].
  rewrite IH by lia. reflexivity.
Qed.

Lemma row_text_one_line (fv : number * number) : one_line (row_text fv).
Proof.
  unfold row_text. apply one_line_app; [apply NumberToString_one_line|].
  apply one_line_app; [|apply toFixed_one_line].
  apply Forall_cons; [split; discriminate|constructor].
Qed.

(** Read line by line, the text [buildDat] returns is the header line
    followed by one row per frequency, in the order of the frequencies:
    the rounded frequency, a tab, and the value with two decimals. *)
Theorem table_is_header_and_rows (fs vals : list number) (label : jsstring) :
  (List.length fs <= List.length vals)%nat ->
  one_line label ->
  exists text,
    buildDat fs vals label = Normal text
    /\ split_lines text
       = (lit "# Frequency(Hz)" ++ [0x09] ++ label)
         :: List.map row_text (combine fs vals).
Proof.
  intros Hlen Hlabel. unfold buildDat.
  rewrite rows_combine by exact Hlen. cbn [bind].
  eexists. split; [reflexivity|].
  unfold split_lines. rewrite split_join; [reflexivity|constructor| |].
  - apply one_line_app; [literal_line|].
    apply one_line_app; [|exact Hlabel].
    apply Forall_cons; [split; discriminate|constructor].
  - apply Forall_map, Forall_forall. intros fv _. apply row_text_one_line.
Qed.

(** ** The recovery list *)

Definition titled_on_one_line (d : DownloadRecord) : Prop :=
  one_line (or_else (title d) []) /\ one_line (or_else (filename d) []).

Lemma entry_line_one_line (d : DownloadRecord) :
  titled_on_one_line d -> one_line (entry_line d).
Proof.
  intros [Ht Hf]. unfold entry_line.
  repeat (apply one_line_app; try assumption); literal_line.
Qed.

(** When no entry matches, the viewer shows the recovery list, and the list
    has one line per entry of the catalogue, in the order of the catalogue,
    with the title and the file name of that entry. *)
Theorem recovery_list_has_a_line_per_entry (U : UCD)
        (downloads : list DownloadRecord) (p : Params) :
  findEntry U downloads p = Normal None ->
  given (p_title p) || given (p_file p) = true ->
  Forall titled_on_one_line downloads ->
  viewer U downloads p = no_match downloads
  /\ In (Warn (lit "Aucune entrée correspondante — liste des entrées:"
               ++ [0x0A] ++ entry_list downloads))
        (no_match downloads)
  /\ (downloads <> [] ->
      split_lines (entry_list downloads) = List.map entry_line downloads).
Proof.
  intros Hf Hg Hd. split; [|split].
  - unfold viewer. rewrite Hf.
    destruct (given (p_title p)), (given (p_file p));
      try discriminate; reflexivity.
  - unfold no_match, showError. cbn. auto.
  - intros Hne. unfold entry_list, split_lines.
    destruct downloads as [|d rest]; [congruence|].
    inversion Hd as [|? ? Hd1 Hd2]; subst.
    cbn [List.map]. rewrite split_join; [reflexivity|constructor| |].
    + now apply entry_line_one_line.
    + apply Forall_map. eapply Forall_impl; [|exact Hd2].
      apply entry_line_one_line.
Qed.

End LinesFacts.

(* ================================================================= *)
(** * More on the search of the catalogue *)

Module SearchFacts.
Import JS Data Main HostFacts MainFacts.

Local Open Scope N_scope.

Definition ascii_upper (c : N) : N :=
  if (0x61 <=? c) && (c <=? 0x7A) then c - 32 else c.

Lemma ascii_lower_upper (c : N) : ascii_lower (ascii_upper c) = ascii_lower c.
Proof.
  unfold ascii_lower, ascii_upper.
  destruct (N.leb_spec 0x61 c), (N.leb_spec c 0x7A); cbn [andb];
    try reflexivity.
  destruct (N.leb_spec 0x41 (c - 32)), (N.leb_spec (c - 32) 0x5A),
    (N.leb_spec 0x41 c), (N.leb_spec c 0x5A); cbn [andb]; lia.
Qed.

Lemma ascii_upper_ascii (s : jsstring) :
  is_ascii s -> is_ascii (List.map ascii_upper s).
Proof.
  intros H. apply Forall_map. eapply Forall_impl; [|exact H].
  intros c Hc. cbn beta in Hc |- *. unfold ascii_upper.
  destruct ((0x61 <=? c) && (c <=? 0x7A)); lia.
Qed.

Lemma filter_filter {A} (f g : A -> bool) (l : list A) :
  filter f (filter g l) = filter g (filter f l).
Proof.
  induction l as [|x l IH]; [reflexivity|]. cbn [filter].
  destruct (f x) eqn:Hf, (g x) eqn:Hg; cbn [filter];
    rewrite ?Hf, ?Hg, IH; reflexivity.
Qed.

Lemma filter_twice {A} (f : A -> bool) (l : list A) :
  filter f (filter f l) = filter f l.
Proof.
  induction l as [|x l IH]; [reflexivity|]. cbn [filter].
  destruct (f x) eqn:Hf; cbn [filter]; rewrite ?Hf, IH; reflexivity.
Qed.

Lemma filterItems_as_filter (U : UCD) (items : list DownloadRecord)
      (q : jsstring) :
  filterItems U items q =
  filter (fun it => negb (truthy q) || includes (hay U it) (toLowerCase U q))
         items.
Proof.
  unfold filterItems. destruct (truthy q); cbn [negb orb].
  - reflexivity.
  - induction items as [|x l IH]; cbn [filter]; congruence.
Qed.

(** Searching and grouping commute: the buckets shown for a query are the
    buckets of the whole catalogue, each searched with the query, so a
    search never moves an item to another category nor reorders a
    category. *)
Theorem search_commutes_with_grouping (U : UCD)
        (items : list DownloadRecord) (q : jsstring) :
  exists g gq,
    group_items U items = Normal g
    /\ group_items U (filterItems U items q) = Normal gq
    /\ algorithme gq = filterItems U (algorithme g) q
    /\ bibliographie gq = filterItems U (bibliographie g) q
    /\ autre gq = filterItems U (autre g) q.
Proof.
  unfold group_items. rewrite !group_items_from.
  do 2 eexists. split; [reflexivity|]. split; [reflexivity|].
  cbn [algorithme bibliographie autre no_groups app].
  rewrite !filterItems_as_filter. repeat split; apply filter_filter.
Qed.

(** The search keeps the order of the catalogue, returns only items whose
    searched text contains the lower-cased query, gives the same result
    when it is applied again to its result, and does not depend on the case
    of the letters of a Basic Latin query. *)
Theorem search_keeps_matching_items (U : UCD)
        (items : list DownloadRecord) (q : jsstring) :
  (exists f, filterItems U items q = filter f items)
  /\ (forall it, In it (filterItems U items q) ->
        In it items
        /\ (q = [] \/ includes (hay U it) (toLowerCase U q) = true))
  /\ filterItems U (filterItems U items q) q = filterItems U items q
  /\ (is_ascii q ->
      filterItems U items (List.map ascii_upper q) = filterItems U items q).
Proof.
  split; [|split; [|split]].
  - eexists. apply filterItems_as_filter.
  - intros it H. rewrite filterItems_as_filter in H.
    apply filter_In in H. destruct H as [Hin Hm]. split; [exact Hin|].
    destruct q; [now left|right]. exact Hm.
  - rewrite !filterItems_as_filter. apply filter_twice.
  - intros Ha. rewrite !filterItems_as_filter.
    assert (Ht : truthy (List.map ascii_upper q) = truthy q)
      by now destruct q.
    assert (Hl : toLowerCase U (List.map ascii_upper q) = toLowerCase U q).
    { unfold toLowerCase.
      rewrite !to_lower_ascii by (try apply ascii_upper_ascii; exact Ha).
      rewrite map_map. apply map_ext. apply ascii_lower_upper. }
    now rewrite Ht, Hl.
Qed.

End SearchFacts.

(* ================================================================= *)
(** * Worked examples

    The conditional properties above, applied to a small catalogue, a small
    measurement file and a few cards. *)

Module Examples.
Import JS Num Data Main Viewer Converter Cards Query.
Import HostFacts ViewerFacts MatcherMore ViewerMore EscapeFacts.
Import ConverterMore CardFacts QueryFacts LinesFacts.

Local Open Scope N_scope.

Definition bundle : DownloadRecord :=
  {| filename := Some (lit "a.zip");
     title := Some (lit "Mon Bundle");
     category := Some (lit " Algo "); description := None;
     code_py := None; code_yaml := None;
     code_path := None; yaml_path := None;
     liens := None |}.

Definition filtre : DownloadRecord :=
  {| filename := Some (lit "filtre.py");
     title := Some (lit "Été & co");
     category := Some (lit "Algorithme"); description := None;
     code_py := Some (lit "print(1)"); code_yaml := None;
     code_path := Some (lit "code/filtre.py"); yaml_path := None;
     liens := None |}.

Definition shelf : list DownloadRecord := [bundle; filtre].

Definition card_of (d : DownloadRecord) : Item :=
  {| record := d; version := None; date := None;
     size_bytes := VUndefined; versionweb := None |}.

Definition by_file (f : jsstring) : Params :=
  {| p_title := None; p_file := Some f |}.

Definition measurement : File :=
  {| name := lit "mesure.S2P";
     content := Some (lit "1000 1 0 1 0") |}.

Definition idle_page : Page :=
  {| generatedLinks := []; linksDisplay := lit "none"; status := Text [] |}.

Ltac each_char t :=
  try red;
  match goal with
  | |- Forall ?P ?l =>
      let x := eval vm_compute in l in change (Forall P x)
  end;
  repeat (apply Forall_cons; [t|]); apply Forall_nil.

Lemma findEntry_returns_member_witness :
  In bundle shelf /\ shelf <> [].
Proof.
  apply (@findEntry_returns_member ucd_excerpt shelf
           (by_title (lit "mon bundle")) bundle).
  reflexivity.
Defined.

Lemma percent_free_file_returns_witness :
  exists r, findEntry ucd_excerpt shelf (by_file (lit "a.zip")) = Normal r.
Proof.
  apply (@percent_free_file_returns ucd_excerpt shelf (by_file (lit "a.zip"))).
  intros f H. injection H as <-. vm_compute. intuition discriminate.
Defined.

Lemma undecodable_file_first_entry_decides_witness :
  findEntry ucd_excerpt shelf (by_file (lit "%")) =
  if str_eqb (or_else (filename bundle) []) (lit "%")
  then Normal (Some bundle) else Throw URIError.
Proof.
  apply (@undecodable_file_first_entry_decides ucd_excerpt bundle [filtre]
           (lit "%") URIError); reflexivity.
Defined.

Lemma file_match_first_of_earliest_tier_witness :
  findEntry ucd_excerpt shelf (by_file (lit "A.ZIP")) = Normal (Some bundle).
Proof.
  assert (Hq : file_query ucd_excerpt shelf (by_file (lit "A.ZIP"))
                          (lit "A.ZIP")).
  { split; [reflexivity|]. split; [reflexivity|]. intros H. discriminate H. }
  assert (Hd : decodeURIComponent (lit "A.ZIP") = Normal (lit "A.ZIP"))
    by reflexivity.
  destruct (@file_match_first_of_earliest_tier ucd_excerpt shelf _ _ _ Hq Hd)
    as [HA _].
  apply (HA 1%nat (file_tier_normalized ucd_excerpt (lit "A.ZIP"))).
  - reflexivity.
  - intros j earlier d Hj Hnth Hin.
    destruct j as [|j]; [|inversion Hj as [|m Hm]; inversion Hm].
    injection Hnth as <-.
    destruct Hin as [<-|[<-|[]]]; reflexivity.
  - exists [], [filtre]. split; [reflexivity|]. split; [reflexivity|].
    intros d [].
Defined.

Lemma norm_ignores_case_and_padding_witness :
  norm ucd_excerpt (Some (lit " " ++ lit "MON bundle" ++ lit "  "))
  = norm ucd_excerpt (Some (lit "Mon Bundle")).
Proof.
  apply (@norm_ignores_case_and_padding ucd_excerpt (lit "Mon Bundle")
           (lit "MON bundle") (lit " ") (lit "  ")).
  - each_char reflexivity.
  - each_char reflexivity.
  - reflexivity.
  - reflexivity.
  - reflexivity.
Defined.

Lemma title_found_in_any_case_witness :
  exists r,
    In r shelf
    /\ findEntry ucd_excerpt shelf
         (by_title (lit " " ++ lit "MON bundle" ++ lit "  "))
       = Normal (Some r).
Proof.
  apply (@title_found_in_any_case ucd_excerpt shelf bundle
           (by_title (lit " " ++ lit "MON bundle" ++ lit "  "))
           (lit "Mon Bundle") (lit "MON bundle") (lit " ") (lit "  ")).
  - left. reflexivity.
  - reflexivity.
  - each_char reflexivity.
  - each_char reflexivity.
  - reflexivity.
  - reflexivity.
  - reflexivity.
  - split; reflexivity.
Defined.

Lemma escapeHtml_injective_witness :
  lit "<a href='x'>&</a>" = lit "<a href='x'>&</a>".
Proof.
  apply (@escapeHtml_injective (lit "<a href='x'>&</a>")
           (lit "<a href='x'>&</a>")).
  reflexivity.
Defined.

Lemma conversion_yields_two_links_witness :
  exists t1 t2,
    buildDat (freqs (parseS2P plain_engine (lit "1000 1 0 1 0")))
             (s11 (parseS2P plain_engine (lit "1000 1 0 1 0")))
             (lit "S11(dB)") = Normal t1
    /\ buildDat (freqs (parseS2P plain_engine (lit "1000 1 0 1 0")))
                (s21 (parseS2P plain_engine (lit "1000 1 0 1 0")))
                (lit "S21(dB)") = Normal t2
    /\ on_click plain_engine (Some measurement) idle_page =
       {| generatedLinks :=
            [makeDownload t1 (base_name (name measurement) ++ lit "_S11.dat");
             makeDownload t2 (base_name (name measurement) ++ lit "_S21.dat")];
          linksDisplay := lit "block";
          status :=
            Text (lit "Conversion OK — "
                  ++ dec_string
                       (Z.of_nat
                          (List.length
                             (freqs (parseS2P plain_engine
                                              (lit "1000 1 0 1 0")))))
                  ++ lit " points générés.") |}.
Proof.
  apply (@conversion_yields_two_links plain_engine measurement
           (lit "1000 1 0 1 0") idle_page).
  - reflexivity.
  - vm_compute. discriminate.
Defined.

Lemma humanSize_below_1024_witness :
  humanSize (VNum (of_Z 512)) = dec_string 512 ++ lit " B".
Proof.
  apply (@humanSize_below_1024 512%Z).
  split; [intros H; vm_compute in H; discriminate H|reflexivity].
Defined.

Lemma card_file_link_is_safe_witness :
  hrefFile (card_of filtre)
  = lit "files/" ++ encodeURI (card_filename (card_of filtre))
  /\ (forall c, In c (hrefFile (card_of filtre)) ->
        c <> 0x22 /\ c <> 0x20 /\ c <> 0x3C /\ c <> 0x3E).
Proof.
  apply (@card_file_link_is_safe (card_of filtre)).
  each_char ltac:(left; reflexivity).
Defined.

Lemma card_does_not_fold_spellings_witness :
  key_of ucd_excerpt (record (card_of bundle)) = lit "algorithme"
  /\ openHref ucd_excerpt (card_of bundle) = hrefFile (card_of bundle).
Proof.
  destruct (@card_does_not_fold_spellings ucd_excerpt (card_of bundle)
              (lit " Algo ")) as (_ & H & _).
  - reflexivity.
  - reflexivity.
  - apply H. left. reflexivity.
Defined.

Lemma params_reads_back_the_title_witness :
  encodes (lit "Été & co") (encodeURIComponent (lit "Été & co"))
  /\ (forall q, encodes (lit "Été & co") q ->
        params (lit "?title=" ++ q)
        = {| p_title := Some (lit "Été & co"); p_file := None |}).
Proof.
  apply (@params_reads_back_the_title (lit "Été & co")).
  each_char ltac:(left; reflexivity).
Defined.

Lemma card_link_finds_its_entry_witness :
  openHref ucd_excerpt (card_of filtre)
  = lit "viewer.html?title=" ++ encodeURIComponent (lit "Été & co")
  /\ exists r0 pre post,
       shelf = pre ++ r0 :: post
       /\ title r0 = Some (lit "Été & co")
       /\ (forall d, In d pre -> title d <> Some (lit "Été & co"))
       /\ findEntry ucd_excerpt shelf
            (params (lit "?title=" ++ encodeURIComponent (lit "Été & co")))
          = Normal (Some r0).
Proof.
  apply (@card_link_finds_its_entry ucd_excerpt shelf (card_of filtre)
           (lit "Été & co") (encodeURIComponent (lit "Été & co"))).
  - right. left. reflexivity.
  - reflexivity.
  - reflexivity.
  - reflexivity.
  - each_char ltac:(left; reflexivity).
  - apply encodeURIComponent_encodes.
Defined.

Lemma table_is_header_and_rows_witness :
  exists text,
    buildDat [of_Z 1000; of_Z 2000] [of_Z 0; of_Z (-3)] (lit "S11(dB)")
    = Normal text
    /\ split_lines text
       = (lit "# Frequency(Hz)" ++ [0x09] ++ lit "S11(dB)")
         :: List.map row_text
              (combine [of_Z 1000; of_Z 2000] [of_Z 0; of_Z (-3)]).
Proof.
  apply (@table_is_header_and_rows [of_Z 1000; of_Z 2000]
           [of_Z 0; of_Z (-3)] (lit "S11(dB)")).
  - apply le_n.
  - literal_line.
Defined.

Lemma recovery_list_has_a_line_per_entry_witness :
  viewer ucd_excerpt shelf (by_title (lit "zzz")) = no_match shelf
  /\ In (Warn (lit "Aucune entrée correspondante — liste des entrées:"
               ++ [0x0A] ++ entry_list shelf))
        (no_match shelf)
  /\ (shelf <> [] ->
      split_lines (entry_list shelf) = List.map entry_line shelf).
Proof.
  apply (@recovery_list_has_a_line_per_entry ucd_excerpt shelf
           (by_title (lit "zzz"))).
  - reflexivity.
  - reflexivity.
  - repeat (apply Forall_cons; [split; literal_line|]). apply Forall_nil.
Defined.

End Examples.
